(** * go-pvaccess: the per-connection protocol engine of [server.go]

    A shallow embedding of [serverConn] and its handlers, and the properties
    of the request life cycle proved about it.

    Conventions of the embedding.
    - Go integers ([pvdata.PVInt], [pvdata.PVByte]) are [Z]; no arithmetic is
      done on them, the flag test of the sub-command is [Z.land].
    - Go maps are [gmap]s.  [requests] maps a request ID to a _pointer_: the
      request objects live in [heap], a list indexed by address, so that the
      closure spawned by EXEC and the table alias the same object.
    - [c.mu] does not appear: every handler, and each locked block of a
      spawned task, is one atomic transition.
    - A Go [error] is [option error] ([None] is [nil]); a function that can
      dereference a nil pointer returns an [outcome].
    - Logging through [ctxlog] has no effect on the state and is left out. *)

From Stdlib Require Import ZArith String Ascii HexadecimalString.
From stdpp Require Import gmap strings list.

Open Scope string_scope.
Open Scope Z_scope.

(** ** Package [pvdata] *)

Module pvdata.

(** Modelled from the spec: [pvdata.PVStatusType] is declared outside
    [server.go]; the spec gives it as a "tri-state severity (OK / ERROR /
    FATAL) plus a human-readable message", and calls the zero value of
    [PVStatus] the OK status. *)
Inductive PVStatusType := PVStatus_OK | PVStatus_ERROR | PVStatus_FATAL.

Record PVStatus := { Type_ : PVStatusType; Message : string }.

(** [pvdata.PVStatus{}] *)
Definition PVStatus_zero : PVStatus :=
  {| Type_ := PVStatus_OK; Message := "" |}.

(** Modelled from the spec: the values a [PVAny] can hold.  [server.go]
    only asks whether [Data] is a [PVStructure] and prints its Go type
    otherwise, so any other dynamic type is represented by its name. *)
Inductive PVField :=
| PVField_nil
| PVField_structure (s : PVStructure)
| PVField_other (goType : string)
with PVStructure :=
| MkPVStructure (ID : string) (Fields : list (string * PVField)).

Record PVAny := { Data : PVField }.

(** [pvdata.NewPVAny] *)
Definition NewPVAny (d : PVField) : PVAny := {| Data := d |}.

End pvdata.
Export pvdata.

(** ** Go errors *)

(** The dynamic types of [error] that [server.go] tells apart: a
    [pvdata.PVStatus] value, the sentinels [asyncOperation] and [io.EOF]
    (compared by identity), and every other error, which is known by its
    text only ([errors.New], [fmt.Errorf], errors of the collaborators). *)
Inductive error :=
| err_PVStatus (s : PVStatus)
| err_asyncOperation
| err_EOF
| err_errorString (msg : string).

(** What a call did: it returned (with an error or [nil]) or it panicked. *)
Inductive outcome :=
| Returned (err : option error)
| Panicked (reason : string).

Definition nil_dereference : string :=
  "invalid memory address or nil pointer dereference".

(** [fmt]'s [%x] on a signed integer: lower-case digits, a minus sign for
    negative numbers. *)
Definition fmt_x (z : Z) : string := NilZero.string_of_int (Z.to_hex_int z).

(** [fmt]'s [%T] on the value held by a [PVAny]. *)
Definition fmt_T (d : PVField) : string :=
  match d with
  | PVField_nil => "<nil>"
  | PVField_structure _ => "pvdata.PVStructure"
  | PVField_other goType => goType
  end.

(** ** Package [proto]: the messages *)

Module proto.

Record ConnectionValidationRequest := {
  ServerReceiveBufferSize : Z;
  ServerIntrospectionRegistryMaxSize : Z;
  AuthNZ : list string
}.

(** Modelled from the spec: "the peer's validation response (buffer
    sizes, registry size, selected auth mechanism)". *)
Record ConnectionValidationResponse := {
  ClientReceiveBufferSize : Z;
  ClientIntrospectionRegistryMaxSize : Z;
  ClientAuthNZ : string
}.

Record CreateChannelRequest_Channel := {
  ClientChannelID : Z;
  ChannelName : string
}.

Record CreateChannelRequest := {
  Channels : list CreateChannelRequest_Channel
}.

Record CreateChannelResponse := {
  resp_ClientChannelID : Z;
  resp_ServerChannelID : Z;
  resp_Status : PVStatus
}.

Record ChannelRPCRequest := {
  ServerChannelID : Z;
  RequestID : Z;
  Subcommand : Z;
  PVRequest : PVAny
}.

Record ChannelRPCResponseInit := {
  init_RequestID : Z;
  init_Subcommand : Z;
  init_Status : PVStatus
}.

Record ChannelRPCResponse := {
  exec_RequestID : Z;
  exec_Subcommand : Z;
  exec_Status : PVStatus;
  PVResponseData : PVAny
}.

(** Modelled from the spec: a search request is "forwarded verbatim to
    the discovery collaborator"; its content is opaque here. *)
Record SearchRequest := { search_raw : string }.

End proto.
Export proto.

(** ** Package [connection]: the framed connection *)

Module connection.

(** What a received message body decodes as. *)
Inductive body :=
| body_ConnectionValidationResponse (r : ConnectionValidationResponse)
| body_CreateChannelRequest (r : CreateChannelRequest)
| body_ChannelRPCRequest (r : ChannelRPCRequest)
| body_SearchRequest (r : SearchRequest)
| body_undecodable.

(** A received application message: the command code of its header, its
    body, and the error [Decode] gives when the body is not of the type
    asked for. *)
Record Message := {
  MessageCommand : Z;
  Body : body;
  decodeErr : error
}.

(** What is handed to the transport. *)
Inductive payload :=
| pl_ConnectionValidationRequest (r : ConnectionValidationRequest)
| pl_ConnectionValidated
| pl_CreateChannelResponse (r : CreateChannelResponse)
| pl_ChannelRPCResponseInit (r : ChannelRPCResponseInit)
| pl_ChannelRPCResponse (r : ChannelRPCResponse).

Inductive wire :=
| Ctrl (cmd : Z) (data : Z)
| App (cmd : Z) (p : payload).

(** The connection as the engine sees it: the protocol version, the
    receive buffer size, the messages sent so far (oldest first), and the
    condition of the transport: [sendErr = Some e] when a send fails with
    [e]. *)
Record Connection := {
  Version : Z;
  ReceiveBufferSize : Z;
  sent : list wire;
  sendErr : option error
}.

Definition push (k : Connection) (w : wire) : Connection :=
  {| Version := Version k; ReceiveBufferSize := ReceiveBufferSize k;
     sent := sent k ++ [w]; sendErr := sendErr k |}.

Definition send (k : Connection) (w : wire) : Connection * option error :=
  match sendErr k with
  | None => (push k w, None)
  | Some e => (k, Some e)
  end.

Definition SendCtrl (k : Connection) (cmd data : Z) := send k (Ctrl cmd data).
Definition SendApp (k : Connection) (cmd : Z) (p : payload) := send k (App cmd p).

Definition set_Version (v : Z) (k : Connection) : Connection :=
  {| Version := v; ReceiveBufferSize := ReceiveBufferSize k;
     sent := sent k; sendErr := sendErr k |}.

Definition set_sendErr (e : option error) (k : Connection) : Connection :=
  {| Version := Version k; ReceiveBufferSize := ReceiveBufferSize k;
     sent := sent k; sendErr := e |}.

Definition Decode_ConnectionValidationResponse (m : Message)
  : error + ConnectionValidationResponse :=
  match Body m with
  | body_ConnectionValidationResponse r => inr r
  | _ => inl (decodeErr m)
  end.

Definition Decode_CreateChannelRequest (m : Message)
  : error + CreateChannelRequest :=
  match Body m with
  | body_CreateChannelRequest r => inr r
  | _ => inl (decodeErr m)
  end.

Definition Decode_ChannelRPCRequest (m : Message)
  : error + ChannelRPCRequest :=
  match Body m with
  | body_ChannelRPCRequest r => inr r
  | _ => inl (decodeErr m)
  end.

Definition Decode_SearchRequest (m : Message) : error + SearchRequest :=
  match Body m with
  | body_SearchRequest r => inr r
  | _ => inl (decodeErr m)
  end.

End connection.
Export connection.

(** ** What the imported packages supply

    The constants of package [proto], the [%q] verb of [fmt],
    [PVStatus.Error] and the search responder ([search.Server.Search], which
    is given the connection and the request) are not part of [server.go];
    the development is parametric in them. *)
Class Imports := {
  APP_CONNECTION_VALIDATION : Z;
  APP_CONNECTION_VALIDATED : Z;
  APP_SEARCH_REQUEST : Z;
  APP_CHANNEL_CREATE : Z;
  APP_CHANNEL_RPC : Z;
  CTRL_SET_BYTE_ORDER : Z;
  CHANNEL_RPC_INIT : Z;
  CHANNEL_RPC_DESTROY : Z;
  fmt_q : string -> string;
  PVStatus_Error : PVStatus -> string;
  search_Search : Connection -> SearchRequest -> Connection * option error
}.

(** ** Channels and their capabilities *)

(** [ChannelRPCer]: something with a [ChannelRPC] method. *)
Record ChannelRPCer := {
  ChannelRPC : PVStructure -> PVField * option error
}.

(** A non-nil [Channel].  [asChannelRPCCreator] is [Some] when the type
    assertion [channel.(ChannelRPCCreator)] succeeds and then holds its
    [CreateChannelRPC] method, which returns a [ChannelRPCer] interface
    value ([None] is the nil interface) and an error.  [asChannelRPCer] is
    [Some] when [channel.(ChannelRPCer)] succeeds and then holds the channel
    itself seen through that interface. *)
Record Channel := {
  Name : string;
  asChannelRPCCreator :
    option (PVStructure -> option ChannelRPCer * option error);
  asChannelRPCer : option ChannelRPCer
}.

(** [ChannelProvider]: [CreateChannel] returns a channel ([None] is nil)
    and an error. *)
Record ChannelProvider := {
  CreateChannel : string -> option Channel * option error
}.

(** An [interface{}] value, as far as [request.doer] is concerned. *)
Inductive iface :=
| iface_nil
| iface_ChannelRPCer (r : ChannelRPCer)
| iface_other (goType : string).

(** Storing a [ChannelRPCer] interface value in an [interface{}]. *)
Definition iface_of (r : option ChannelRPCer) : iface :=
  match r with
  | None => iface_nil
  | Some e => iface_ChannelRPCer e
  end.

(** ** Requests *)

Inductive requestStatus :=
| INIT | READY | REQUEST_IN_PROGRESS | CANCELLED | DESTROYED.

#[global] Instance requestStatus_eq_dec : EqDecision requestStatus.
Proof. solve_decision. Defined.

Definition requestStatusNames (s : requestStatus) : string :=
  match s with
  | INIT => "INIT"
  | READY => "READY"
  | REQUEST_IN_PROGRESS => "REQUEST_IN_PROGRESS"
  | CANCELLED => "CANCELLED"
  | DESTROYED => "DESTROYED"
  end.

(** [func (r requestStatus) String() string] *)
Definition requestStatus_String (r : requestStatus) : string :=
  requestStatusNames r.

(** [cancel] records whether a cancellation handle has been stored; the
    handle itself is never called in [server.go]. *)
Record request := {
  doer : iface;
  cancel : bool;
  status : requestStatus
}.

Definition set_status (s : requestStatus) (r : request) : request :=
  {| doer := doer r; cancel := cancel r; status := s |}.

Definition set_cancel (b : bool) (r : request) : request :=
  {| doer := doer r; cancel := b; status := status r |}.

(** ** The server connection *)

Record Server := {
  channelProviders : list ChannelProvider
}.

(** The closure handed to [c.g.Go] by EXEC, with what it captured: the
    request pointer [r], the executor, the arguments and the request
    message.  [t_responded] tells whether it has already sent its response
    and is waiting for [c.mu]. *)
Record task := {
  t_r : nat;
  t_rpcer : ChannelRPCer;
  t_args : PVStructure;
  t_req : ChannelRPCRequest;
  t_responded : bool
}.

Definition set_responded (t : task) : task :=
  {| t_r := t_r t; t_rpcer := t_rpcer t; t_args := t_args t;
     t_req := t_req t; t_responded := true |}.

(** [heap] holds the [request] objects allocated so far, by address; [g]
    holds the tasks of the error group that have not returned yet. *)
Record serverConn := {
  Conn : Connection;
  srv : Server;
  g : list task;
  channels : gmap Z Channel;
  requests : gmap Z nat;
  heap : list request
}.

Definition set_Conn (k : Connection) (c : serverConn) : serverConn :=
  {| Conn := k; srv := srv c; g := g c; channels := channels c;
     requests := requests c; heap := heap c |}.

Definition set_g (ts : list task) (c : serverConn) : serverConn :=
  {| Conn := Conn c; srv := srv c; g := ts; channels := channels c;
     requests := requests c; heap := heap c |}.

Definition set_channels (m : gmap Z Channel) (c : serverConn) : serverConn :=
  {| Conn := Conn c; srv := srv c; g := g c; channels := m;
     requests := requests c; heap := heap c |}.

Definition set_requests (m : gmap Z nat) (c : serverConn) : serverConn :=
  {| Conn := Conn c; srv := srv c; g := g c; channels := channels c;
     requests := m; heap := heap c |}.

Definition set_heap (h : list request) (c : serverConn) : serverConn :=
  {| Conn := Conn c; srv := srv c; g := g c; channels := channels c;
     requests := requests c; heap := h |}.

(** [&request{...}]: allocate a request object, return its address. *)
Definition new_request (r : request) (c : serverConn) : serverConn * nat :=
  (set_heap (heap c ++ [r]) c, length (heap c)).

(** [c.SendApp], the embedded connection's method. *)
Definition conn_SendApp (c : serverConn) (cmd : Z) (p : payload)
  : serverConn * option error :=
  let '(k, err) := SendApp (Conn c) cmd p in (set_Conn k c, err).

(** The state after [w] has been sent. *)
Definition pushed (c : serverConn) (w : wire) : serverConn :=
  set_Conn (push (Conn c) w) c.

(** [func (c *serverConn) addRequest(id pvdata.PVInt, r *request) error].
    The table never holds an address outside the heap in a state of a
    connection (see [wf_requests] below); where it does, the model lets the
    read of [existing.status] panic. *)
Definition addRequest (c : serverConn) (id : Z) (r : nat)
  : serverConn * outcome :=
  match requests c !! id with
  | Some existing =>
      match heap c !! existing with
      | None => (c, Panicked nil_dereference)
      | Some e =>
          if decide (status e <> DESTROYED) then
            (c, Returned (Some (err_errorString
                  ("request ID " +:+ fmt_x id +:+ " already exists with status "
                   +:+ requestStatusNames (status e)))))
          else (set_requests (<[id := r]> (requests c)) c, Returned None)
      end
  | None => (set_requests (<[id := r]> (requests c)) c, Returned None)
  end.

(** [func (srv *Server) newConn(conn io.ReadWriter) *serverConn] *)
Definition newConn (s : Server) (k : Connection) : serverConn :=
  {| Conn := k; srv := s; g := []; channels := ∅; requests := ∅; heap := [] |}.

(** [func errorToStatus(err error) pvdata.PVStatus] *)
Definition Error `{Imports} (e : error) : string :=
  match e with
  | err_PVStatus s => PVStatus_Error s
  | err_asyncOperation => "async operation started"
  | err_EOF => "EOF"
  | err_errorString msg => msg
  end.

Definition errorToStatus `{Imports} (err : option error) : PVStatus :=
  match err with
  | None => PVStatus_zero
  | Some (err_PVStatus s) => s
  | Some e => {| Type_ := PVStatus_FATAL; pvdata.Message := Error e |}
  end.

Section server.

Context `{Imports}.

(** Modelled from the spec: [createChannel] is defined outside
    [server.go].  The spec: "query the provider registry, in order, for a
    channel matching the requested name; the first provider returning a
    non-nil channel wins"; a channel found is registered "under the
    client-chosen ID in the connection's channel table"; when "resolution
    returns an error" no channel is registered. *)
Fixpoint resolveChannel (ps : list ChannelProvider) (name : string)
  : option Channel * option error :=
  match ps with
  | [] => (None, None)
  | p :: ps' =>
      match CreateChannel p name with
      | (_, Some err) => (None, Some err)
      | (Some ch, None) => (Some ch, None)
      | (None, None) => resolveChannel ps' name
      end
  end.

Definition createChannel (c : serverConn) (channelID : Z) (name : string)
  : serverConn * (option Channel * option error) :=
  match resolveChannel (channelProviders (srv c)) name with
  | (Some ch, None) =>
      (set_channels (<[channelID := ch]> (channels c)) c, (Some ch, None))
  | res => (c, res)
  end.

(** [func (c *serverConn) handleConnectionValidation] *)
Definition handleConnectionValidation (c : serverConn) (msg : Message)
  : serverConn * outcome :=
  match Decode_ConnectionValidationResponse msg with
  | inl err => (c, Returned (Some err))
  | inr resp =>
      let '(c', err) :=
        conn_SendApp c APP_CONNECTION_VALIDATED pl_ConnectionValidated in
      (c', Returned err)
  end.

(** [func (c *serverConn) handleCreateChannelRequest] *)
Definition handleCreateChannelRequest (c : serverConn) (msg : Message)
  : serverConn * outcome :=
  match Decode_CreateChannelRequest msg with
  | inl err => (c, Returned (Some err))
  | inr req =>
      let '(c1, resp) :=
        match Channels req with
        | [ch] =>
            let '(c1, (channel, err)) :=
              createChannel c (ClientChannelID ch) (ChannelName ch) in
            (c1,
             match err, channel with
             | Some e, _ =>
                 {| resp_ClientChannelID := ClientChannelID ch;
                    resp_ServerChannelID := 0;
                    resp_Status := errorToStatus (Some e) |}
             | None, Some _ =>
                 {| resp_ClientChannelID := ClientChannelID ch;
                    resp_ServerChannelID := ClientChannelID ch;
                    resp_Status := PVStatus_zero |}
             | None, None =>
                 {| resp_ClientChannelID := ClientChannelID ch;
                    resp_ServerChannelID := 0;
                    resp_Status :=
                      {| Type_ := PVStatus_ERROR;
                         pvdata.Message :=
                           "unknown channel " +:+ fmt_q (ChannelName ch) |} |}
             end)
        | _ =>
            (c,
             {| resp_ClientChannelID := 0;
                resp_ServerChannelID := 0;
                resp_Status :=
                  {| Type_ := PVStatus_ERROR;
                     pvdata.Message := "wrong number of channels" |} |})
        end in
      let '(c2, err) :=
        conn_SendApp c1 APP_CHANNEL_CREATE (pl_CreateChannelResponse resp) in
      (c2, Returned err)
  end.

(** [req.Subcommand&proto.CHANNEL_RPC_DESTROY == proto.CHANNEL_RPC_DESTROY] *)
Definition has_DESTROY (subcommand : Z) : bool :=
  Z.land subcommand CHANNEL_RPC_DESTROY =? CHANNEL_RPC_DESTROY.

(** The closure of [c.g.Go], up to and including [c.SendApp]: the executor
    runs and the response is sent; a failed send is only logged. *)
Definition task_response (t : task) : ChannelRPCResponse :=
  let '(respData, err) := ChannelRPC (t_rpcer t) (t_args t) in
  {| exec_RequestID := RequestID (t_req t);
     exec_Subcommand := Subcommand (t_req t);
     exec_Status := errorToStatus err;
     PVResponseData := NewPVAny respData |}.

Definition task_respond (c : serverConn) (i : nat) (t : task) : serverConn :=
  let '(c', _) :=
    conn_SendApp c APP_CHANNEL_RPC (pl_ChannelRPCResponse (task_response t)) in
  set_g (<[i := set_responded t]> (g c')) c'.

(** The rest of the closure, under [c.mu]: [r.status = READY], then
    [r.status = DESTROYED] when the sub-command has the flag; the task
    returns. *)
Definition task_finish (c : serverConn) (i : nat) (t : task) : serverConn :=
  let h1 := alter (set_status READY) (t_r t) (heap c) in
  let h2 :=
    if has_DESTROY (Subcommand (t_req t))
    then alter (set_status DESTROYED) (t_r t) h1
    else h1 in
  set_g (delete i (g c)) (set_heap h2 c).

(** [func (c *serverConn) handleChannelRPCBody].  In the default branch
    [c.requests[req.RequestID]] is a nil pointer when the table has no
    entry, and [r.status] then panics. *)
Definition handleChannelRPCBody (c : serverConn) (req : ChannelRPCRequest)
  : serverConn * outcome :=
  match channels c !! ServerChannelID req with
  | None =>
      (c, Returned (Some (err_errorString
            ("unknown channel ID " +:+ fmt_x (ServerChannelID req)))))
  | Some channel =>
      match Data (PVRequest req) with
      | PVField_structure args =>
          if Subcommand req =? CHANNEL_RPC_INIT then
            let res :=
              match asChannelRPCCreator channel with
              | Some create =>
                  match create args with
                  | (_, Some err) => inl err
                  | (rpcer, None) => inr rpcer
                  end
              | None =>
                  match asChannelRPCer channel with
                  | Some r => inr (Some r)
                  | None =>
                      inl (err_errorString
                             ("channel " +:+ fmt_q (Name channel) +:+ " (ID "
                              +:+ fmt_x (ServerChannelID req)
                              +:+ ") does not support RPC"))
                  end
              end in
            match res with
            | inl err => (c, Returned (Some err))
            | inr rpcer =>
                let '(c1, r) :=
                  new_request
                    {| doer := iface_of rpcer; cancel := false;
                       status := READY |} c in
                addRequest c1 (RequestID req) r
            end
          else
            match requests c !! RequestID req with
            | None => (c, Panicked nil_dereference)
            | Some r =>
                match heap c !! r with
                | None => (c, Panicked nil_dereference)
                | Some ro =>
                    if decide (status ro <> READY) then
                      (c, Returned (Some (err_PVStatus
                            {| Type_ := PVStatus_ERROR;
                               pvdata.Message := "request not READY" |})))
                    else
                      match doer ro with
                      | iface_ChannelRPCer rpcer =>
                          let ro' :=
                            set_cancel true
                              (set_status REQUEST_IN_PROGRESS ro) in
                          let t :=
                            {| t_r := r; t_rpcer := rpcer; t_args := args;
                               t_req := req; t_responded := false |} in
                          (set_g (g c ++ [t])
                             (set_heap (<[r := ro']> (heap c)) c),
                           Returned (Some err_asyncOperation))
                      | _ =>
                          (c, Returned (Some (err_errorString
                                "request not for RPC")))
                      end
                end
            end
      | d =>
          (c, Returned (Some (err_errorString
                ("RPC arguments were of type " +:+ fmt_T d
                 +:+ ", expected PVStructure"))))
      end
  end.

(** [func (c *serverConn) handleChannelRPC] *)
Definition handleChannelRPC (c : serverConn) (msg : Message)
  : serverConn * outcome :=
  match Decode_ChannelRPCRequest msg with
  | inl err => (c, Returned (Some err))
  | inr req =>
      match handleChannelRPCBody c req with
      | (c1, Panicked p) => (c1, Panicked p)
      | (c1, Returned (Some err_asyncOperation)) => (c1, Returned None)
      | (c1, Returned err) =>
          let resp :=
            {| init_RequestID := RequestID req;
               init_Subcommand := Subcommand req;
               init_Status := errorToStatus err |} in
          let '(c2, e) :=
            conn_SendApp c1 APP_CHANNEL_RPC (pl_ChannelRPCResponseInit resp) in
          (c2, Returned e)
      end
  end.

(** [func (c *serverConn) handleSearchRequest] *)
Definition handleSearchRequest (c : serverConn) (msg : Message)
  : serverConn * outcome :=
  match Decode_SearchRequest msg with
  | inl err => (c, Returned (Some err))
  | inr req =>
      let '(k, err) := search_Search (Conn c) req in
      (set_Conn k c, Returned err)
  end.

(** [var serverDispatch] *)
Definition serverDispatch
  : gmap Z (serverConn -> Message -> serverConn * outcome) :=
  <[APP_CONNECTION_VALIDATION := handleConnectionValidation]>
    (<[APP_CHANNEL_CREATE := handleCreateChannelRequest]>
       (<[APP_CHANNEL_RPC := handleChannelRPC]>
          (<[APP_SEARCH_REQUEST := handleSearchRequest]> ∅))).

(** [func (c *serverConn) handleServerOnePacket]; [next] is what
    [c.Next] returned. *)
Definition handleServerOnePacket (c : serverConn) (next : error + Message)
  : serverConn * outcome :=
  match next with
  | inl err => (c, Returned (Some err))
  | inr msg =>
      match serverDispatch !! MessageCommand msg with
      | Some f => f c msg
      | None => (c, Returned None)
      end
  end.

(** [func (c *serverConn) serve], before its loop. *)
Definition serve_start (c : serverConn) : serverConn * option error :=
  let c0 := set_Conn (set_Version 2 (Conn c)) c in
  match SendCtrl (Conn c0) CTRL_SET_BYTE_ORDER 0 with
  | (_, Some err) => (c0, Some err)
  | (k, None) =>
      let req :=
        {| ServerReceiveBufferSize := ReceiveBufferSize k;
           ServerIntrospectionRegistryMaxSize := 0x7fff;
           AuthNZ := ["anonymous"] |} in
      let '(c1, _) :=
        conn_SendApp (set_Conn k c0) APP_CONNECTION_VALIDATION
          (pl_ConnectionValidationRequest req) in
      (c1, None)
  end.

(** *** The life of a connection

    What happens beside the read loop: a spawned task sends its response,
    a task that has responded takes [c.mu], sets the status and returns,
    or the transport changes its condition. *)
Inductive async_step (c : serverConn) : serverConn -> Prop :=
| async_respond i t :
    g c !! i = Some t -> t_responded t = false ->
    async_step c (task_respond c i t)
| async_finish i t :
    g c !! i = Some t -> t_responded t = true ->
    async_step c (task_finish c i t)
| async_transport e :
    async_step c (set_Conn (set_sendErr e (Conn c)) c).

(** The states in which the loop of [serve] is running: it goes on as
    long as [handleServerOnePacket] returns [nil]. *)
Inductive serving : serverConn -> Prop :=
| serving_start s k c :
    serve_start (newConn s k) = (c, None) -> serving c
| serving_packet c next c' :
    serving c ->
    handleServerOnePacket c next = (c', Returned None) ->
    serving c'
| serving_async c c' :
    serving c -> async_step c c' -> serving c'.

(** All states of a connection: also those after [serve] has returned
    with an error, where the spawned tasks may still run. *)
Inductive reachable : serverConn -> Prop :=
| reachable_start s k c e :
    serve_start (newConn s k) = (c, e) -> reachable c
| reachable_serving c :
    serving c -> reachable c
| reachable_stopped c next c' e :
    serving c ->
    handleServerOnePacket c next = (c', Returned (Some e)) ->
    reachable c'
| reachable_async c c' :
    reachable c -> async_step c c' -> reachable c'.

(** A channel whose RPC factory, when it reports no error, returns an
    executor. *)
Definition factory_total (ch : Channel) : Prop :=
  forall create args,
    asChannelRPCCreator ch = Some create -> create args <> (None, None).

(** A server all of whose providers hand out such channels only. *)
Definition careful_server (s : Server) : Prop :=
  forall p name ch err,
    p ∈ channelProviders s ->
    CreateChannel p name = (Some ch, err) -> factory_total ch.

(** The shape every state of a connection has: the table points into the
    heap; a task in flight holds the object that the table has under the
    task's request ID, and that object is REQUEST_IN_PROGRESS; two tasks
    never hold the same object; no [doer] is a value of a foreign type;
    and, when the server is careful, the open channels have total
    factories and no [doer] is nil. *)
Record wf (c : serverConn) : Prop := {
  wf_requests : forall id r,
    requests c !! id = Some r -> is_Some (heap c !! r);
  wf_tasks : forall i t,
    g c !! i = Some t ->
    requests c !! RequestID (t_req t) = Some (t_r t) /\
    exists ro, heap c !! t_r t = Some ro /\ status ro = REQUEST_IN_PROGRESS;
  wf_tasks_distinct : forall i j t u,
    g c !! i = Some t -> g c !! j = Some u -> t_r t = t_r u -> i = j;
  wf_doer : forall r ro goType,
    heap c !! r = Some ro -> doer ro <> iface_other goType;
  wf_channels : careful_server (srv c) -> forall id ch,
    channels c !! id = Some ch -> factory_total ch;
  wf_executor : careful_server (srv c) -> forall r ro,
    heap c !! r = Some ro -> doer ro <> iface_nil
}.

(** *** Vocabulary of the statements *)

(** The request ID [id] can be given to a new request: the table has no
    entry for it, or the entry's request is DESTROYED. *)
Definition reusable (c : serverConn) (id : Z) : Prop :=
  requests c !! id = None \/
  exists r ro,
    requests c !! id = Some r /\ heap c !! r = Some ro /\
    status ro = DESTROYED.

(** The state in which a new request object [ro] has been allocated and
    stored under [id]. *)
Definition with_request (c : serverConn) (id : Z) (ro : request)
  : serverConn :=
  set_requests (<[id := length (heap c)]> (requests c))
    (set_heap (heap c ++ [ro]) c).

(** The synchronous answer of [handleChannelRPC] to [req]. *)
Definition ack (req : ChannelRPCRequest) (st : PVStatus) : wire :=
  App APP_CHANNEL_RPC
    (pl_ChannelRPCResponseInit
       {| init_RequestID := RequestID req;
          init_Subcommand := Subcommand req;
          init_Status := st |}).

End server.

(** ** The connection as a whole *)

(** Errors can be compared, as [err == asyncOperation] and [err == io.EOF]
    do. *)
#[global] Instance PVStatusType_eq_dec : EqDecision PVStatusType.
Proof. solve_decision. Defined.

#[global] Instance PVStatus_eq_dec : EqDecision PVStatus.
Proof. solve_decision. Defined.

#[global] Instance error_eq_dec : EqDecision error.
Proof. solve_decision. Defined.

Section connection_life.

Context `{Imports}.

(** What one step does to the tasks, the table and the heap.  The
    connection and the channel table are left open: they do not matter for
    the life of a request. *)
Inductive transition (c c' : serverConn) : Prop :=
| tr_frame :
    g c' = g c -> requests c' = requests c -> heap c' = heap c ->
    transition c c'
| tr_alloc rpcer :
    g c' = g c -> requests c' = requests c ->
    heap c' =
      (heap c ++ [ {| doer := iface_of rpcer; cancel := false;
                      status := READY |} ])%list ->
    transition c c'
| tr_register rpcer id :
    reusable c id ->
    g c' = g c ->
    requests c' = <[id := length (heap c)]> (requests c) ->
    heap c' =
      (heap c ++ [ {| doer := iface_of rpcer; cancel := false;
                      status := READY |} ])%list ->
    transition c c'
| tr_spawn req r ro rpcer args :
    Subcommand req <> CHANNEL_RPC_INIT ->
    Data (PVRequest req) = PVField_structure args ->
    requests c !! RequestID req = Some r ->
    heap c !! r = Some ro -> status ro = READY ->
    doer ro = iface_ChannelRPCer rpcer ->
    g c' =
      (g c ++ [ {| t_r := r; t_rpcer := rpcer; t_args := args;
                   t_req := req; t_responded := false |} ])%list ->
    requests c' = requests c ->
    heap c' =
      <[r := set_cancel true (set_status REQUEST_IN_PROGRESS ro)]> (heap c) ->
    transition c c'
| tr_respond i t :
    g c !! i = Some t ->
    g c' = <[i := set_responded t]> (g c) ->
    requests c' = requests c -> heap c' = heap c ->
    transition c c'
| tr_finish i t :
    g c !! i = Some t ->
    g c' = delete i (g c) ->
    requests c' = requests c ->
    heap c' = heap (task_finish c i t) ->
    transition c c'.

(** One step of a connection: the read loop handles what [c.Next]
    returned, or something happens beside the loop. *)
Definition conn_step (c c' : serverConn) : Prop :=
  (exists next o, handleServerOnePacket c next = (c', o)) \/
  async_step c c'.

(** What can happen on a connection, one after the other. *)
Inductive event :=
| ev_packet (next : error + Message)
| ev_respond (i : nat)
| ev_finish (i : nat)
| ev_transport (e : option error).

(** The loop of [serve] under a schedule of events.  The result is [None]
    while the loop is still running, and what [serve] returned (or that it
    panicked) once it has stopped; [io.EOF] from [handleServerOnePacket]
    makes [serve] return [nil].  An event for a task that is not there, or
    not in the right phase, does nothing. *)
Fixpoint serve_loop (c : serverConn) (evs : list event)
  : serverConn * option outcome :=
  match evs with
  | [] => (c, None)
  | ev_packet next :: rest =>
      match handleServerOnePacket c next with
      | (c', Returned None) => serve_loop c' rest
      | (c', Returned (Some err_EOF)) => (c', Some (Returned None))
      | (c', Returned (Some err)) => (c', Some (Returned (Some err)))
      | (c', Panicked p) => (c', Some (Panicked p))
      end
  | ev_respond i :: rest =>
      match g c !! i with
      | Some t =>
          if t_responded t then serve_loop c rest
          else serve_loop (task_respond c i t) rest
      | None => serve_loop c rest
      end
  | ev_finish i :: rest =>
      match g c !! i with
      | Some t =>
          if t_responded t then serve_loop (task_finish c i t) rest
          else serve_loop c rest
      | None => serve_loop c rest
      end
  | ev_transport e :: rest =>
      serve_loop (set_Conn (set_sendErr e (Conn c)) c) rest
  end.

(** [func (c *serverConn) serve] *)
Definition serve (c : serverConn) (evs : list event)
  : serverConn * option outcome :=
  match serve_start c with
  | (c0, Some err) => (c0, Some (Returned (Some err)))
  | (c1, None) => serve_loop c1 evs
  end.

End connection_life.

(** ** The built-in channel [serverChannel] *)

(** What [args.SubField(name)] holds, as far as [ChannelRPC] asks: the
    type assertions to [*pvdata.PVStructure] and [*pvdata.PVString] succeed
    for a nil pointer of the type as well ([None]). *)
Inductive subfield :=
| sub_nil
| sub_PVStructure (q : option PVStructure)
| sub_PVString (v : option string)
| sub_other.

(** What [ChannelRPC] reads from the process. *)
Record process_env := {
  os_Args : list string;
  os_Hostname : string * option error;
  GOOS : string;
  GOARCH : string
}.

(** The anonymous struct returned for the operation "info". *)
Record server_info := {
  info_Process : string;
  info_StartTime : string;
  info_Version : string;
  info_ImplLang : string;
  info_Host : string;
  info_OS : string;
  info_Arch : string
}.

(** The values [ChannelRPC] returns: [struct{}{}], [&struct{}{}] and the
    pointer to the info struct. *)
Inductive rpc_value :=
| val_empty
| val_empty_ptr
| val_info (i : server_info).

Inductive rpc_result :=
| rpc_returned (v : rpc_value) (err : option error)
| rpc_panicked (reason : string).

Definition PVStructure_ID (s : PVStructure) : string :=
  match s with MkPVStructure ID _ => ID end.

Definition invalid_argument : error :=
  err_PVStatus {| Type_ := PVStatus_ERROR;
                  pvdata.Message := "invalid argument" |}.

Definition index_out_of_range : string :=
  "index out of range [0] with length 0".

Section serverChannel.

(** [PVStructure.SubField] is declared in package [pvdata]; the
    development is parametric in it and in the process environment. *)
Variable SubField : PVStructure -> string -> subfield.
Variable env : process_env.

(** [func (serverChannel) Name() string] *)
Definition serverChannel_Name : string := "server".

(** [func (c *serverChannel) CreateChannel]: [true] when the channel
    returns itself, [false] when it returns [nil]; the error is always
    [nil]. *)
Definition serverChannel_CreateChannel (name : string) : bool :=
  String.eqb name serverChannel_Name.

(** [func (c *serverChannel) ChannelRPC], from the read of "op" on: the
    part that runs on the arguments after a NTURI has been unwrapped.  The
    test of the sub-field "help" has an empty body. *)
Definition serverChannel_operation (args : PVStructure) : rpc_result :=
  match
    match SubField args "op" with
    | sub_PVString (Some v) => inr v
    | sub_PVString None => inl nil_dereference
    | _ => inr ""
    end
  with
  | inl p => rpc_panicked p
  | inr op =>
      if String.eqb op "channels" then
        rpc_returned val_empty_ptr (Some invalid_argument)
      else if String.eqb op "info" then
        let hostname := fst (os_Hostname env) in
        match os_Args env with
        | [] => rpc_panicked index_out_of_range
        | arg0 :: _ =>
            rpc_returned
              (val_info
                 {| info_Process := arg0;
                    info_StartTime := "sometime";
                    info_Version := "1.0";
                    info_ImplLang := "Go";
                    info_Host := hostname;
                    info_OS := GOOS env;
                    info_Arch := GOARCH env |})
              None
        end
      else rpc_returned val_empty_ptr (Some invalid_argument)
  end.

(** [func (c *serverChannel) ChannelRPC] *)
Definition serverChannel_ChannelRPC (args : PVStructure) : rpc_result :=
  if String.prefix "epics:nt/NTURI:1." (PVStructure_ID args) then
    match SubField args "query" with
    | sub_PVStructure (Some q) => serverChannel_operation q
    | sub_PVStructure None => rpc_panicked nil_dereference
    | _ => rpc_returned val_empty (Some invalid_argument)
    end
  else serverChannel_operation args.

End serverChannel.

(** ** Sample data

    An instance of the imports with the codes of the pvAccess protocol, a
    quoting function good for names without special characters, and a
    search responder that does nothing. *)

Definition quote_plain (s : string) : string :=
  String (ascii_of_nat 34) (s +:+ String (ascii_of_nat 34) EmptyString).

Definition pva : Imports := {|
  APP_CONNECTION_VALIDATION := 1;
  APP_CONNECTION_VALIDATED := 9;
  APP_SEARCH_REQUEST := 3;
  APP_CHANNEL_CREATE := 7;
  APP_CHANNEL_RPC := 20;
  CTRL_SET_BYTE_ORDER := 2;
  CHANNEL_RPC_INIT := 8;
  CHANNEL_RPC_DESTROY := 16;
  fmt_q := quote_plain;
  PVStatus_Error := pvdata.Message;
  search_Search := fun k _ => (k, None)
|}.

(** A channel that executes RPCs itself and returns its argument. *)
Definition echo_rpcer : ChannelRPCer :=
  {| ChannelRPC := fun args => (PVField_structure args, None) |}.

Definition echo_channel : Channel :=
  {| Name := "echo"; asChannelRPCCreator := None;
     asChannelRPCer := Some echo_rpcer |}.

(** A channel that fails every RPC with an error of its own. *)
Definition failing_rpcer : ChannelRPCer :=
  {| ChannelRPC := fun _ => (PVField_nil, Some (err_errorString "boom")) |}.

Definition failing_channel : Channel :=
  {| Name := "fail"; asChannelRPCCreator := None;
     asChannelRPCer := Some failing_rpcer |}.

(** A channel with an RPC factory. *)
Definition factory_channel : Channel :=
  {| Name := "made";
     asChannelRPCCreator := Some (fun _ => (Some echo_rpcer, None));
     asChannelRPCer := None |}.

(** A channel whose RPC factory returns neither an executor nor an error. *)
Definition lazy_channel : Channel :=
  {| Name := "lazy";
     asChannelRPCCreator := Some (fun _ => (None, None));
     asChannelRPCer := None |}.

(** A channel without RPC capability. *)
Definition bare_channel : Channel :=
  {| Name := "bare"; asChannelRPCCreator := None; asChannelRPCer := None |}.

Definition sample_provider : ChannelProvider :=
  {| CreateChannel := fun name =>
       if String.eqb name "echo" then (Some echo_channel, None)
       else if String.eqb name "fail" then (Some failing_channel, None)
       else if String.eqb name "made" then (Some factory_channel, None)
       else if String.eqb name "lazy" then (Some lazy_channel, None)
       else if String.eqb name "bare" then (Some bare_channel, None)
       else (None, None) |}.

Definition sample_srv : Server := {| channelProviders := [sample_provider] |}.

Definition k0 : Connection :=
  {| Version := 0; ReceiveBufferSize := 16384; sent := []; sendErr := None |}.

Definition no_args : PVStructure := MkPVStructure "" [].

Definition msg_create (id : Z) (name : string) : Message :=
  {| MessageCommand := 7;
     Body := body_CreateChannelRequest
       {| Channels := [{| ClientChannelID := id; ChannelName := name |}] |};
     decodeErr := err_errorString "decode" |}.

Definition rpc_request (ch id sub : Z) (d : PVField) : ChannelRPCRequest :=
  {| ServerChannelID := ch; RequestID := id; Subcommand := sub;
     PVRequest := {| Data := d |} |}.

Definition msg_rpc (ch id sub : Z) (d : PVField) : Message :=
  {| MessageCommand := 20;
     Body := body_ChannelRPCRequest (rpc_request ch id sub d);
     decodeErr := err_errorString "decode" |}.

(** The state after one more packet. *)
Definition after (c : serverConn) (m : Message) : serverConn :=
  fst (@handleServerOnePacket pva c (inr m)).

(** The connection after the handshake, and after channel 1 has been
    opened on the name given. *)
Definition c_start : serverConn :=
  fst (@serve_start pva (newConn sample_srv k0)).

Definition c_open (name : string) : serverConn :=
  after c_start (msg_create 1 name).

Definition args0 : PVField := PVField_structure no_args.

(** Request 5 initialised on the echo channel; then an EXEC of it with the
    DESTROY flag in flight; then that task has responded; then it has
    returned. *)
Definition c_ready : serverConn := after (c_open "echo") (msg_rpc 1 5 8 args0).

Definition c_busy : serverConn := after c_ready (msg_rpc 1 5 16 args0).

Definition t_busy : task :=
  {| t_r := 0; t_rpcer := echo_rpcer; t_args := no_args;
     t_req := rpc_request 1 5 16 args0; t_responded := false |}.

Definition c_responded : serverConn := @task_respond pva c_busy 0 t_busy.

Definition c_done : serverConn :=
  @task_finish pva c_responded 0 (set_responded t_busy).

(** Request 5 initialised on the channel whose factory returns nothing. *)
Definition c_lazy : serverConn := after (c_open "lazy") (msg_rpc 1 5 8 args0).

(** A message with a command code outside the dispatch table, and a
    create-channel request without entries. *)
Definition msg_unknown : Message :=
  {| MessageCommand := 99; Body := body_undecodable;
     decodeErr := err_errorString "decode" |}.

Definition msg_create_none : Message :=
  {| MessageCommand := 7;
     Body := body_CreateChannelRequest {| Channels := [] |};
     decodeErr := err_errorString "decode" |}.

(** Request 5 initialised and an EXEC of it without the DESTROY flag in
    flight. *)
Definition c_exec : serverConn := after c_ready (msg_rpc 1 5 0 args0).

Definition t_exec : task :=
  {| t_r := 0; t_rpcer := echo_rpcer; t_args := no_args;
     t_req := rpc_request 1 5 0 args0; t_responded := false |}.

(** A channel whose RPC factory refuses with a status of its own, open as
    channel 1. *)
Definition refusal : error :=
  err_PVStatus {| Type_ := PVStatus_ERROR; pvdata.Message := "not today" |}.

Definition refusing_factory : PVStructure -> option ChannelRPCer * option error :=
  fun _ => (None, Some refusal).

Definition refusing_channel : Channel :=
  {| Name := "no"; asChannelRPCCreator := Some refusing_factory;
     asChannelRPCer := None |}.

Definition c_refusing : serverConn :=
  set_channels (<[1 := refusing_channel]> (channels c_start)) c_start.

(** A CHANNEL_RPC message whose body does not decode. *)
Definition msg_garbled : Message :=
  {| MessageCommand := 20; Body := body_undecodable;
     decodeErr := err_errorString "short read" |}.

(** Arguments for the built-in channel: a NTURI whose query asks for the
    operation "info", and a process to run in. *)
Definition query_info : PVStructure := MkPVStructure "query" [].

Definition nturi_info : PVStructure := MkPVStructure "epics:nt/NTURI:1.0" [].

Definition sample_SubField (a : PVStructure) (name : string) : subfield :=
  if String.eqb (PVStructure_ID a) "epics:nt/NTURI:1.0" then
    if String.eqb name "query" then sub_PVStructure (Some query_info)
    else sub_nil
  else if String.eqb (PVStructure_ID a) "query" then
    if String.eqb name "op" then sub_PVString (Some "info") else sub_nil
  else sub_nil.

Definition sample_env : process_env :=
  {| os_Args := ["pvserver"]; os_Hostname := ("ioc1", None);
     GOOS := "linux"; GOARCH := "amd64" |}.

Definition sample_info : server_info :=
  {| info_Process := "pvserver"; info_StartTime := "sometime";
     info_Version := "1.0"; info_ImplLang := "Go"; info_Host := "ioc1";
     info_OS := "linux"; info_Arch := "amd64" |}.

(** * Properties *)

Section properties.

Context `{Imports}.

Implicit Types (c : serverConn) (t : task) (ro : request).

(** ** Sending *)

Lemma conn_SendApp_ok c cmd p :
  sendErr (Conn c) = None ->
  conn_SendApp c cmd p = (pushed c (App cmd p), None).
Proof.
  intros Hok. unfold conn_SendApp, SendApp, send. now rewrite Hok.
Qed.

Lemma conn_SendApp_store c cmd p c' e :
  conn_SendApp c cmd p = (c', e) ->
  srv c' = srv c /\ g c' = g c /\ channels c' = channels c /\
  requests c' = requests c /\ heap c' = heap c.
Proof.
  unfold conn_SendApp. destruct (SendApp (Conn c) cmd p) as [k e'].
  intros [= <- <-]. now repeat split.
Qed.

(** ** The invariant [wf] *)

Lemma wf_same_store c c' :
  srv c' = srv c -> channels c' = channels c ->
  g c' = g c -> requests c' = requests c -> heap c' = heap c ->
  wf c -> wf c'.
Proof.
  intros Hs Hc Hg Hr Hh [W1 W2 W3 W4 W5 W6].
  split; rewrite ?Hs, ?Hc, ?Hg, ?Hr, ?Hh; assumption.
Qed.

Lemma wf_newConn s k : wf (newConn s k).
Proof.
  split; simpl.
  - intros id r Hl. now rewrite lookup_empty in Hl.
  - intros i t Hl. now rewrite lookup_nil in Hl.
  - intros i j t u Hl. now rewrite lookup_nil in Hl.
  - intros r ro ty Hl. now rewrite lookup_nil in Hl.
  - intros _ id ch Hl. now rewrite lookup_empty in Hl.
  - intros _ r ro Hl. now rewrite lookup_nil in Hl.
Qed.

Lemma wf_alloc c ro :
  (forall goType, doer ro <> iface_other goType) ->
  (careful_server (srv c) -> doer ro <> iface_nil) ->
  wf c -> wf (set_heap (heap c ++ [ro]) c).
Proof.
  intros Hd Hn [W1 W2 W3 W4 W5 W6]. split; simpl; try assumption.
  - intros id r Hl. destruct (W1 _ _ Hl) as [x Hx].
    exists x. now apply lookup_app_l_Some.
  - intros i t Hl. destruct (W2 _ _ Hl) as (Hr & x & Hx & Hs).
    split; [assumption|]. exists x. split; [|assumption].
    now apply lookup_app_l_Some.
  - intros r x ty Hl. apply lookup_app_Some in Hl as [Hl | [_ Hl]].
    + now apply (W4 r).
    + apply list_lookup_singleton_Some in Hl as [_ <-]. apply Hd.
  - intros Hcare r x Hl. apply lookup_app_Some in Hl as [Hl | [_ Hl]].
    + now apply (W6 Hcare r).
    + apply list_lookup_singleton_Some in Hl as [_ <-]. now apply Hn.
Qed.

Lemma wf_addRequest c id r c' o :
  wf c -> is_Some (heap c !! r) ->
  addRequest c id r = (c', o) -> wf c'.
Proof.
  intros W Hr. unfold addRequest.
  assert (Hins :
    (forall i t, g c !! i = Some t -> RequestID (t_req t) <> id) ->
    wf (set_requests (<[id := r]> (requests c)) c)).
  { intros Hfree. destruct W as [W1 W2 W3 W4 W5 W6].
    split; simpl; try assumption.
    - intros id' r' Hl. apply lookup_insert_Some in Hl as [[_ <-] | [_ Hl]].
      + assumption.
      + now apply (W1 id').
    - intros i t Hl.
      rewrite lookup_insert_ne by (intros E; now apply (Hfree i t)).
      exact (W2 i t Hl). }
  destruct (requests c !! id) as [existing|] eqn:Hex.
  - destruct (heap c !! existing) as [e|] eqn:He.
    + destruct (decide (status e <> DESTROYED)) as [Hlive | Hdead].
      * now intros [= <- <-].
      * intros [= <- <-]. apply Hins. intros i t Hl Hid.
        destruct (wf_tasks c W _ _ Hl) as (Ht & x & Hx & Hs).
        rewrite Hid, Hex in Ht. injection Ht as ->.
        rewrite He in Hx. injection Hx as ->.
        apply Hdead. rewrite Hs. discriminate.
    + now intros [= <- <-].
  - intros [= <- <-]. apply Hins. intros i t Hl Hid.
    destruct (wf_tasks c W _ _ Hl) as (Ht & _).
    rewrite Hid, Hex in Ht. discriminate.
Qed.

Lemma wf_spawn c r ro rpcer args req :
  wf c ->
  requests c !! RequestID req = Some r ->
  heap c !! r = Some ro -> status ro = READY ->
  wf (set_g (g c ++ [ {| t_r := r; t_rpcer := rpcer; t_args := args;
                         t_req := req; t_responded := false |} ])
        (set_heap
           (<[r := set_cancel true (set_status REQUEST_IN_PROGRESS ro)]>
              (heap c)) c)).
Proof.
  intros [W1 W2 W3 W4 W5 W6] Hreq Hro Hst.
  assert (Hlt : (r < length (heap c))%nat) by now apply lookup_lt_Some with ro.
  assert (Hother : forall i t, g c !! i = Some t -> t_r t <> r).
  { intros i t Hl E. destruct (W2 _ _ Hl) as (_ & x & Hx & Hs).
    rewrite E, Hro in Hx. injection Hx as <-. congruence. }
  assert (Hsame : forall r' x,
    <[r := set_cancel true (set_status REQUEST_IN_PROGRESS ro)]> (heap c)
      !! r' = Some x ->
    exists y, heap c !! r' = Some y /\ doer x = doer y).
  { intros r' x Hl. destruct (decide (r' = r)) as [-> | Hne].
    - rewrite list_lookup_insert_eq in Hl by assumption.
      injection Hl as <-. now exists ro.
    - rewrite list_lookup_insert_ne in Hl by congruence. now exists x. }
  split; simpl; try assumption.
  - intros id r' Hl. destruct (W1 _ _ Hl) as [x Hx].
    apply lookup_lt_is_Some. rewrite length_insert.
    now apply lookup_lt_Some with x.
  - intros i t Hl. apply lookup_app_Some in Hl as [Hl | [_ Hl]].
    + destruct (W2 _ _ Hl) as (Hr & x & Hx & Hs). split; [assumption|].
      exists x. split; [|assumption].
      rewrite list_lookup_insert_ne; [assumption|].
      intros E. now apply (Hother i t).
    + apply list_lookup_singleton_Some in Hl as [_ <-]. simpl.
      split; [assumption|]. eexists. split.
      * now apply list_lookup_insert_eq.
      * reflexivity.
  - intros i j t u Hi Hj E.
    apply lookup_app_Some in Hi as [Hi | [Hgi Hi]];
      apply lookup_app_Some in Hj as [Hj | [Hgj Hj]].
    + now apply (W3 i j t u).
    + apply list_lookup_singleton_Some in Hj as [_ <-]. simpl in E.
      now destruct (Hother i t Hi).
    + apply list_lookup_singleton_Some in Hi as [_ <-]. simpl in E.
      now destruct (Hother j u Hj).
    + apply list_lookup_singleton_Some in Hi as [Hi _].
      apply list_lookup_singleton_Some in Hj as [Hj _]. lia.
  - intros r' x ty Hl. destruct (Hsame _ _ Hl) as (y & Hy & ->).
    now apply (W4 r').
  - intros Hcare r' x Hl. destruct (Hsame _ _ Hl) as (y & Hy & ->).
    now apply (W6 Hcare r').
Qed.

Lemma resolveChannel_provider ps name ch e :
  resolveChannel ps name = (Some ch, e) ->
  exists p, p ∈ ps /\ CreateChannel p name = (Some ch, None).
Proof.
  induction ps as [|p ps IH]; simpl; [discriminate|].
  destruct (CreateChannel p name) as [[x|] [err|]] eqn:Hp;
    try discriminate.
  - intros [= -> <-]. exists p. split; [left | assumption].
  - intros Hres. destruct (IH Hres) as (q & Hq & Hc).
    exists q. split; [now right | assumption].
Qed.

Lemma wf_createChannel c id name c' res :
  wf c -> createChannel c id name = (c', res) -> wf c'.
Proof.
  intros W. unfold createChannel.
  destruct (resolveChannel (channelProviders (srv c)) name)
    as [[ch|] [err|]] eqn:Hres; intros [= <- <-]; try assumption.
  destruct W as [W1 W2 W3 W4 W5 W6]. split; simpl; try assumption.
  intros Hcare id' ch' Hl.
  apply lookup_insert_Some in Hl as [[_ <-] | [_ Hl]].
  - destruct (resolveChannel_provider _ _ _ _ Hres) as (p & Hp & Hc).
    exact (Hcare p name ch None Hp Hc).
  - exact (W5 Hcare id' ch' Hl).
Qed.

Lemma wf_conn_SendApp c cmd p c' e :
  wf c -> conn_SendApp c cmd p = (c', e) -> wf c'.
Proof.
  intros W Hs. apply conn_SendApp_store in Hs as (? & ? & ? & ? & ?).
  now apply (wf_same_store c).
Qed.

Lemma wf_handleConnectionValidation c msg c' o :
  wf c -> handleConnectionValidation c msg = (c', o) -> wf c'.
Proof.
  intros W. unfold handleConnectionValidation.
  destruct (Decode_ConnectionValidationResponse msg) as [err|resp].
  - now intros [= <- <-].
  - destruct (conn_SendApp c _ _) as [c1 e] eqn:Hs. intros [= <- <-].
    now apply (wf_conn_SendApp _ _ _ _ _ W Hs).
Qed.

Lemma wf_handleCreateChannelRequest c msg c' o :
  wf c -> handleCreateChannelRequest c msg = (c', o) -> wf c'.
Proof.
  intros W. unfold handleCreateChannelRequest.
  destruct (Decode_CreateChannelRequest msg) as [err|req].
  { now intros [= <- <-]. }
  destruct (Channels req) as [|ch [|ch' rest]].
  - destruct (conn_SendApp c _ _) as [c2 e] eqn:Hs. intros [= <- <-].
    now apply (wf_conn_SendApp _ _ _ _ _ W Hs).
  - destruct (createChannel c (ClientChannelID ch) (ChannelName ch))
      as [c1 [channel err]] eqn:Hc.
    destruct (conn_SendApp c1 _ _) as [c2 e] eqn:Hs. intros [= <- <-].
    apply (wf_conn_SendApp _ _ _ _ _ (wf_createChannel _ _ _ _ _ W Hc) Hs).
  - destruct (conn_SendApp c _ _) as [c2 e] eqn:Hs. intros [= <- <-].
    now apply (wf_conn_SendApp _ _ _ _ _ W Hs).
Qed.

Lemma wf_handleSearchRequest c msg c' o :
  wf c -> handleSearchRequest c msg = (c', o) -> wf c'.
Proof.
  intros W. unfold handleSearchRequest.
  destruct (Decode_SearchRequest msg) as [err|req].
  - now intros [= <- <-].
  - destruct (search_Search (Conn c) req) as [k e]. intros [= <- <-].
    now apply (wf_same_store c).
Qed.

Lemma iface_of_not_other rpcer goType : iface_of rpcer <> iface_other goType.
Proof. now destruct rpcer. Qed.

Lemma wf_handleChannelRPCBody c req c' o :
  wf c -> handleChannelRPCBody c req = (c', o) -> wf c'.
Proof.
  intros W. unfold handleChannelRPCBody.
  destruct (channels c !! ServerChannelID req) as [channel|] eqn:Hch;
    [|now intros [= <- <-]].
  destruct (Data (PVRequest req)) as [|args|ty]; try now intros [= <- <-].
  destruct (Subcommand req =? CHANNEL_RPC_INIT).
  - assert (Hreg : forall rpcer,
      (careful_server (srv c) -> rpcer <> None) ->
      (let '(c1, r) :=
         new_request {| doer := iface_of rpcer; cancel := false;
                        status := READY |} c in
       addRequest c1 (RequestID req) r) = (c', o) -> wf c').
    { intros rpcer Hn. unfold new_request. intros Ha.
      eapply wf_addRequest; [| |exact Ha].
      - apply wf_alloc; [apply iface_of_not_other| |assumption].
        simpl. intros Hcare. specialize (Hn Hcare). now destruct rpcer.
      - simpl. rewrite lookup_app_r by lia.
        now rewrite Nat.sub_diag. }
    destruct (asChannelRPCCreator channel) as [create|] eqn:Hcr.
    + destruct (create args) as [rpcer [err|]] eqn:Hca;
        [now intros [= <- <-]|].
      apply Hreg. intros Hcare ->.
      exact (wf_channels c W Hcare _ _ Hch create args Hcr Hca).
    + destruct (asChannelRPCer channel) as [r|];
        [|now intros [= <- <-]].
      apply Hreg. discriminate.
  - destruct (requests c !! RequestID req) as [r|] eqn:Hr;
      [|now intros [= <- <-]].
    destruct (heap c !! r) as [ro|] eqn:Hro; [|now intros [= <- <-]].
    destruct (decide (status ro <> READY)) as [Hnr | Hrdy];
      [now intros [= <- <-]|].
    destruct (doer ro) as [|rpcer|ty]; try now intros [= <- <-].
    intros [= <- <-]. apply wf_spawn; try assumption.
    now destruct (decide (status ro = READY)).
Qed.

Lemma wf_handleChannelRPC c msg c' o :
  wf c -> handleChannelRPC c msg = (c', o) -> wf c'.
Proof.
  intros W. unfold handleChannelRPC.
  destruct (Decode_ChannelRPCRequest msg) as [err|req];
    [now intros [= <- <-]|].
  destruct (handleChannelRPCBody c req) as [c1 o1] eqn:Hb.
  pose proof (wf_handleChannelRPCBody _ _ _ _ W Hb) as W1.
  destruct o1 as [[e|]|p].
  - destruct e; try (now intros [= <- <-]);
      destruct (conn_SendApp c1 _ _) as [c2 e2] eqn:Hs; intros [= <- <-];
      now apply (wf_conn_SendApp _ _ _ _ _ W1 Hs).
  - destruct (conn_SendApp c1 _ _) as [c2 e2] eqn:Hs; intros [= <- <-];
      now apply (wf_conn_SendApp _ _ _ _ _ W1 Hs).
  - now intros [= <- <-].
Qed.

(** The dispatch table holds the four handlers and nothing else. *)
Lemma serverDispatch_lookup code f :
  serverDispatch !! code = Some f ->
  f = handleConnectionValidation \/ f = handleCreateChannelRequest \/
  f = handleChannelRPC \/ f = handleSearchRequest.
Proof.
  unfold serverDispatch. intros Hl.
  repeat (apply lookup_insert_Some in Hl as [[_ <-] | [_ Hl]]; [tauto|]).
  now rewrite lookup_empty in Hl.
Qed.

Lemma wf_handleServerOnePacket c next c' o :
  wf c -> handleServerOnePacket c next = (c', o) -> wf c'.
Proof.
  intros W. unfold handleServerOnePacket.
  destruct next as [err|msg]; [now intros [= <- <-]|].
  destruct (serverDispatch !! MessageCommand msg) as [f|] eqn:Hf;
    [|now intros [= <- <-]].
  destruct (serverDispatch_lookup _ _ Hf) as [-> | [-> | [-> | ->]]].
  - now apply wf_handleConnectionValidation.
  - now apply wf_handleCreateChannelRequest.
  - now apply wf_handleChannelRPC.
  - now apply wf_handleSearchRequest.
Qed.

(** ** Spawned tasks *)

(** The heap a finishing task leaves. *)
Lemma task_finish_heap c i t r :
  heap (task_finish c i t) !! r =
  if decide (r = t_r t)
  then set_status (if has_DESTROY (Subcommand (t_req t))
                   then DESTROYED else READY) <$> heap c !! r
  else heap c !! r.
Proof.
  unfold task_finish. simpl.
  destruct (decide (r = t_r t)) as [-> | Hne].
  - destruct (has_DESTROY (Subcommand (t_req t))).
    + rewrite !list_lookup_alter_eq. now destruct (heap c !! t_r t).
    + now rewrite list_lookup_alter_eq.
  - destruct (has_DESTROY (Subcommand (t_req t)));
      now rewrite !list_lookup_alter_ne by congruence.
Qed.

Lemma task_finish_doer c i t r ro' :
  heap (task_finish c i t) !! r = Some ro' ->
  exists ro, heap c !! r = Some ro /\ doer ro' = doer ro.
Proof.
  rewrite task_finish_heap. destruct (decide (r = t_r t)).
  - destruct (heap c !! r) as [ro|]; [|discriminate].
    intros [= <-]. now exists ro.
  - intros Hl. now exists ro'.
Qed.

(** A task left in the group after task [i] is gone was in the group
    before, at an index that is not [i]. *)
Lemma lookup_delete_task (l : list task) i j u :
  delete i l !! j = Some u ->
  exists j', l !! j' = Some u /\ j' <> i /\
             j' = if decide (j < i)%nat then j else S j.
Proof.
  intros Hl. destruct (decide (j < i)%nat) as [Hlt | Hge].
  - rewrite list_lookup_delete_lt in Hl by assumption.
    exists j. repeat split; [assumption | lia].
  - rewrite list_lookup_delete_ge in Hl by lia.
    exists (S j). repeat split; [assumption | lia].
Qed.

Lemma wf_task_finish c i t :
  wf c -> g c !! i = Some t -> wf (task_finish c i t).
Proof.
  intros [W1 W2 W3 W4 W5 W6] Hi. split.
  - intros id r Hl. change (requests c !! id = Some r) in Hl.
    destruct (W1 _ _ Hl) as [x Hx]. rewrite task_finish_heap, Hx.
    destruct (decide (r = t_r t)); simpl; eauto.
  - intros j u Hl. change (delete i (g c) !! j = Some u) in Hl.
    apply lookup_delete_task in Hl as (j' & Hj' & Hne & _).
    destruct (W2 _ _ Hj') as (Hr & x & Hx & Hs).
    split; [exact Hr|]. exists x. split; [|assumption].
    rewrite task_finish_heap.
    destruct (decide (t_r u = t_r t)) as [E | _]; [|assumption].
    now destruct (Hne (W3 _ _ _ _ Hj' Hi E)).
  - intros j1 j2 u1 u2 H1 H2 E.
    change (delete i (g c) !! j1 = Some u1) in H1.
    change (delete i (g c) !! j2 = Some u2) in H2.
    apply lookup_delete_task in H1 as (k1 & Hk1 & _ & E1).
    apply lookup_delete_task in H2 as (k2 & Hk2 & _ & E2).
    pose proof (W3 _ _ _ _ Hk1 Hk2 E) as Hk.
    destruct (decide (j1 < i)%nat), (decide (j2 < i)%nat); lia.
  - intros r x ty Hl. destruct (task_finish_doer _ _ _ _ _ Hl) as (y & Hy & ->).
    now apply (W4 r).
  - exact W5.
  - intros Hcare r x Hl.
    destruct (task_finish_doer _ _ _ _ _ Hl) as (y & Hy & ->).
    now apply (W6 Hcare r).
Qed.

Lemma wf_task_respond c i t :
  wf c -> g c !! i = Some t -> wf (task_respond c i t).
Proof.
  intros W Hi. unfold task_respond.
  destruct (conn_SendApp c _ _) as [c1 e] eqn:Hs.
  pose proof (wf_conn_SendApp _ _ _ _ _ W Hs) as [W1 W2 W3 W4 W5 W6].
  apply conn_SendApp_store in Hs as (_ & Hg & _).
  rewrite Hg in *.
  assert (Hup : forall j u, <[i := set_responded t]> (g c) !! j = Some u ->
    exists u', g c !! j = Some u' /\ t_r u = t_r u' /\ t_req u = t_req u').
  { intros j u Hl. destruct (decide (j = i)) as [-> | Hne].
    - rewrite list_lookup_insert_eq in Hl by now apply lookup_lt_Some with t.
      injection Hl as <-. now exists t.
    - rewrite list_lookup_insert_ne in Hl by congruence. now exists u. }
  split; simpl; try assumption.
  - intros j u Hl. destruct (Hup _ _ Hl) as (u' & Hu' & -> & ->).
    now apply (W2 j).
  - intros j1 j2 u1 u2 H1 H2 E.
    destruct (Hup _ _ H1) as (v1 & Hv1 & E1 & _).
    destruct (Hup _ _ H2) as (v2 & Hv2 & E2 & _).
    apply (W3 j1 j2 v1 v2); congruence.
Qed.

Lemma wf_async_step c c' : wf c -> async_step c c' -> wf c'.
Proof.
  intros W [i t Hi _ | i t Hi _ | e].
  - now apply wf_task_respond.
  - now apply wf_task_finish.
  - now apply (wf_same_store c).
Qed.

Lemma wf_serve_start c c' e : wf c -> serve_start c = (c', e) -> wf c'.
Proof.
  intros W. unfold serve_start.
  destruct (SendCtrl _ _ _) as [k [err|]].
  - intros [= <- <-]. now apply (wf_same_store c).
  - destruct (conn_SendApp _ _ _) as [c1 e1] eqn:Hs. intros [= <- <-].
    refine (wf_conn_SendApp _ _ _ _ _ _ Hs).
    now apply (wf_same_store c).
Qed.

Lemma wf_serving c : serving c -> wf c.
Proof.
  induction 1 as [s k c Hs | c next c' _ IH Hp | c c' _ IH Ha].
  - exact (wf_serve_start _ _ _ (wf_newConn s k) Hs).
  - exact (wf_handleServerOnePacket _ _ _ _ IH Hp).
  - exact (wf_async_step _ _ IH Ha).
Qed.

(** Every state of a connection is well formed. *)
Lemma wf_reachable c : reachable c -> wf c.
Proof.
  induction 1 as [s k c e Hs | c Hs | c next c' e Hs Hp | c c' _ IH Ha].
  - exact (wf_serve_start _ _ _ (wf_newConn s k) Hs).
  - now apply wf_serving.
  - exact (wf_handleServerOnePacket _ _ _ _ (wf_serving _ Hs) Hp).
  - exact (wf_async_step _ _ IH Ha).
Qed.

(** ** [errorToStatus] *)

(** C7.  [errorToStatus] maps [nil] to the zero status, which is the OK
    status; an error that is itself a [PVStatus] to that status,
    unchanged; and any other error to a status of severity FATAL whose
    message is the error's text. *)
Theorem errorToStatus_cases :
  errorToStatus None = PVStatus_zero /\
  Type_ PVStatus_zero = PVStatus_OK /\
  (forall s, errorToStatus (Some (err_PVStatus s)) = s) /\
  (forall e, (forall s, e <> err_PVStatus s) ->
     errorToStatus (Some e) =
     {| Type_ := PVStatus_FATAL; pvdata.Message := Error e |}).
Proof.
  repeat split.
  intros e He. destruct e as [s| | |msg]; try reflexivity.
  now destruct (He s).
Qed.

(** ** [addRequest] *)

Lemma addRequest_live c id r existing e :
  requests c !! id = Some existing -> heap c !! existing = Some e ->
  status e <> DESTROYED ->
  addRequest c id r =
  (c, Returned (Some (err_errorString
        ("request ID " +:+ fmt_x id +:+ " already exists with status "
         +:+ requestStatusNames (status e))))).
Proof.
  intros Hex He Hlive. unfold addRequest. rewrite Hex, He.
  now destruct (decide (status e <> DESTROYED)).
Qed.

Lemma addRequest_reusable c id r :
  reusable c id ->
  addRequest c id r =
  (set_requests (<[id := r]> (requests c)) c, Returned None).
Proof.
  unfold addRequest. intros [Hnone | (existing & e & Hex & He & Hd)].
  - now rewrite Hnone.
  - rewrite Hex, He. destruct (decide (status e <> DESTROYED)) as [Hl|_];
      [now destruct Hl | reflexivity].
Qed.

(** C2.  [addRequest] fails and leaves the connection as it was when the
    table has an entry for the ID whose request is not DESTROYED; when
    there is no entry, or the entry's request is DESTROYED, the new
    request is stored under the ID and nothing else changes. *)
Theorem addRequest_reuse_rule c id r :
  (forall existing e,
      requests c !! id = Some existing -> heap c !! existing = Some e ->
      status e <> DESTROYED ->
      exists err, addRequest c id r = (c, Returned (Some err))) /\
  (reusable c id ->
   exists c',
     addRequest c id r = (c', Returned None) /\
     requests c' = <[id := r]> (requests c) /\
     requests c' !! id = Some r /\
     heap c' = heap c /\ channels c' = channels c /\ g c' = g c).
Proof.
  split.
  - intros existing e Hex He Hlive. eexists.
    exact (addRequest_live c id r existing e Hex He Hlive).
  - intros Hre. eexists. split; [now apply addRequest_reusable|].
    simpl. repeat split. apply lookup_insert_eq.
Qed.

(** ** [handleServerOnePacket] *)

(** C9.  A message whose command code is none of the four codes of the
    dispatch table is ignored: [handleServerOnePacket] returns [nil], and
    the connection, with what it has sent, is as before. *)
Theorem unknown_command_ignored c msg :
  MessageCommand msg <> APP_CONNECTION_VALIDATION ->
  MessageCommand msg <> APP_CHANNEL_CREATE ->
  MessageCommand msg <> APP_CHANNEL_RPC ->
  MessageCommand msg <> APP_SEARCH_REQUEST ->
  handleServerOnePacket c (inr msg) = (c, Returned None).
Proof.
  intros H1 H2 H3 H4. unfold handleServerOnePacket, serverDispatch.
  rewrite !lookup_insert_ne by congruence. now rewrite lookup_empty.
Qed.

(** ** [handleCreateChannelRequest] *)

(** C6.  A create-channel request with no entry, or with two or more, is
    answered with a status of severity ERROR under the command code
    CHANNEL_CREATE; the channel table is not touched.  With a working
    transport the answer is sent and the handler returns [nil]. *)
Theorem wrong_number_of_channels c msg req :
  Decode_CreateChannelRequest msg = inr req ->
  length (Channels req) <> 1%nat ->
  exists resp,
    Type_ (resp_Status resp) = PVStatus_ERROR /\
    handleCreateChannelRequest c msg =
      (let '(c', e) :=
         conn_SendApp c APP_CHANNEL_CREATE (pl_CreateChannelResponse resp)
       in (c', Returned e)) /\
    channels (fst (handleCreateChannelRequest c msg)) = channels c /\
    (sendErr (Conn c) = None ->
     handleCreateChannelRequest c msg =
       (pushed c (App APP_CHANNEL_CREATE (pl_CreateChannelResponse resp)),
        Returned None)).
Proof.
  intros Hd Hlen.
  exists {| resp_ClientChannelID := 0; resp_ServerChannelID := 0;
            resp_Status := {| Type_ := PVStatus_ERROR;
                              pvdata.Message := "wrong number of channels" |} |}.
  assert (Heq : handleCreateChannelRequest c msg =
    (let '(c', e) :=
       conn_SendApp c APP_CHANNEL_CREATE
         (pl_CreateChannelResponse
            {| resp_ClientChannelID := 0; resp_ServerChannelID := 0;
               resp_Status := {| Type_ := PVStatus_ERROR;
                                 pvdata.Message := "wrong number of channels" |} |})
     in (c', Returned e))).
  { unfold handleCreateChannelRequest. rewrite Hd.
    destruct (Channels req) as [|ch [|ch' rest]]; simpl in Hlen;
      [reflexivity | now destruct Hlen | reflexivity]. }
  split; [reflexivity|]. split; [exact Heq|]. split.
  - rewrite Heq. destruct (conn_SendApp c _ _) as [c' e] eqn:Hs.
    now apply conn_SendApp_store in Hs as (_ & _ & Hc & _).
  - intros Hok. rewrite Heq. now rewrite conn_SendApp_ok.
Qed.

(** ** [handleChannelRPC] *)

(** Whatever [handleChannelRPCBody] returns, other than the sentinel
    [asyncOperation], is turned into a status and sent in the
    synchronous answer; the handler itself then returns [nil]. *)
Lemma handleChannelRPC_reply c msg req c1 err :
  Decode_ChannelRPCRequest msg = inr req ->
  handleChannelRPCBody c req = (c1, Returned err) ->
  err <> Some err_asyncOperation ->
  sendErr (Conn c1) = None ->
  handleChannelRPC c msg =
  (pushed c1 (ack req (errorToStatus err)), Returned None).
Proof.
  intros Hd Hb Hna Hok. unfold handleChannelRPC. rewrite Hd, Hb.
  destruct err as [[s| | |text]|]; try (now destruct Hna);
    now rewrite conn_SendApp_ok.
Qed.

Lemma body_unknown_channel c req :
  channels c !! ServerChannelID req = None ->
  handleChannelRPCBody c req =
  (c, Returned (Some (err_errorString
        ("unknown channel ID " +:+ fmt_x (ServerChannelID req))))).
Proof. intros Hch. unfold handleChannelRPCBody. now rewrite Hch. Qed.

Lemma body_not_structure c req :
  (forall s, Data (PVRequest req) <> PVField_structure s) ->
  exists text,
    handleChannelRPCBody c req = (c, Returned (Some (err_errorString text))).
Proof.
  intros Hns. unfold handleChannelRPCBody.
  destruct (channels c !! ServerChannelID req) as [channel|];
    [|eexists; reflexivity].
  destruct (Data (PVRequest req)) as [|s|ty] eqn:Hd;
    [eexists; reflexivity | now destruct (Hns s) | eexists; reflexivity].
Qed.

(** C5 (amended).  A CHANNEL_RPC INIT on a channel ID that is not in the
    channel table is answered with a status of severity FATAL (message
    "unknown channel ID" and the ID in hexadecimal); no request is
    registered, nothing is spawned, and the handler returns [nil], so the
    connection stays open. *)
Theorem init_unknown_channel c msg req :
  Decode_ChannelRPCRequest msg = inr req ->
  Subcommand req = CHANNEL_RPC_INIT ->
  channels c !! ServerChannelID req = None ->
  sendErr (Conn c) = None ->
  exists c',
    handleChannelRPC c msg = (c', Returned None) /\
    sent (Conn c') =
      (sent (Conn c) ++
       [ack req {| Type_ := PVStatus_FATAL;
                   pvdata.Message :=
                     "unknown channel ID " +:+ fmt_x (ServerChannelID req) |}])%list /\
    requests c' = requests c /\ heap c' = heap c /\ g c' = g c /\
    channels c' = channels c.
Proof.
  intros Hd _ Hch Hok. eexists. split.
  - apply (handleChannelRPC_reply c msg req c _ Hd
             (body_unknown_channel c req Hch)); [discriminate | exact Hok].
  - now repeat split.
Qed.

(** C8 (amended).  When the argument payload of a CHANNEL_RPC request is
    not a structure, [handleChannelRPCBody] returns a plain error (not a
    status) before it looks at the sub-command: no executor is looked up,
    no request is registered, nothing is spawned.  [handleChannelRPC]
    reports that error to the peer as a per-request status of severity
    FATAL and returns [nil]. *)
Theorem arguments_not_structure c msg req :
  Decode_ChannelRPCRequest msg = inr req ->
  (forall s, Data (PVRequest req) <> PVField_structure s) ->
  sendErr (Conn c) = None ->
  exists text,
    handleChannelRPCBody c req =
      (c, Returned (Some (err_errorString text))) /\
    handleChannelRPC c msg =
      (pushed c (ack req {| Type_ := PVStatus_FATAL;
                            pvdata.Message := text |}),
       Returned None).
Proof.
  intros Hd Hns Hok. destruct (body_not_structure c req Hns) as [text Hb].
  exists text. split; [exact Hb|].
  apply (handleChannelRPC_reply c msg req c _ Hd Hb);
    [discriminate | exact Hok].
Qed.

Lemma reusable_alloc c id ro :
  reusable c id -> reusable (set_heap (heap c ++ [ro]) c) id.
Proof.
  intros [Hnone | (r & x & Hr & Hx & Hs)]; [now left | right].
  exists r, x. repeat split; try assumption.
  simpl. now apply lookup_app_l_Some.
Qed.

Lemma body_init_registers c req channel args rpcer :
  channels c !! ServerChannelID req = Some channel ->
  Data (PVRequest req) = PVField_structure args ->
  Subcommand req = CHANNEL_RPC_INIT ->
  match asChannelRPCCreator channel with
  | Some create => create args = (rpcer, None)
  | None => asChannelRPCer channel = rpcer /\ rpcer <> None
  end ->
  reusable c (RequestID req) ->
  handleChannelRPCBody c req =
  (with_request c (RequestID req)
     {| doer := iface_of rpcer; cancel := false; status := READY |},
   Returned None).
Proof.
  intros Hch Hdata Hsub Hex Hre. unfold handleChannelRPCBody.
  rewrite Hch, Hdata. apply Z.eqb_eq in Hsub. rewrite Hsub.
  assert (Hadd :
    (let '(c1, r) :=
       new_request {| doer := iface_of rpcer; cancel := false;
                      status := READY |} c in
     addRequest c1 (RequestID req) r) =
    (with_request c (RequestID req)
       {| doer := iface_of rpcer; cancel := false; status := READY |},
     Returned None)).
  { unfold new_request. rewrite addRequest_reusable; [reflexivity|].
    now apply reusable_alloc. }
  destruct (asChannelRPCCreator channel) as [create|].
  - now rewrite Hex.
  - destruct Hex as [-> Hnn]. destruct rpcer as [r|]; [exact Hadd|].
    now destruct Hnn.
Qed.

(** C4.  A CHANNEL_RPC INIT on a known channel, with a structure as
    argument: when the channel has an RPC factory, the executor is what
    the factory returns for the argument; otherwise, when the channel
    executes RPCs itself, the executor is the channel; otherwise the INIT
    fails with an error that says the channel does not support RPC.  When
    the INIT succeeds (the factory reported no error and the request ID
    can be used), a request with status READY and that executor as its
    doer is stored under the request ID, no task is spawned, and the
    answer, with the OK status, is sent before the handler returns. *)
Theorem init_executor c msg req channel args :
  Decode_ChannelRPCRequest msg = inr req ->
  channels c !! ServerChannelID req = Some channel ->
  Data (PVRequest req) = PVField_structure args ->
  Subcommand req = CHANNEL_RPC_INIT ->
  sendErr (Conn c) = None ->
  let registers (rpcer : option ChannelRPCer) :=
    reusable c (RequestID req) ->
    exists c' r,
      handleChannelRPC c msg = (c', Returned None) /\
      requests c' !! RequestID req = Some r /\
      heap c' !! r =
        Some {| doer := iface_of rpcer; cancel := false; status := READY |} /\
      g c' = g c /\
      sent (Conn c') = (sent (Conn c) ++ [ack req PVStatus_zero])%list in
  (forall create rpcer,
      asChannelRPCCreator channel = Some create ->
      create args = (rpcer, None) -> registers rpcer) /\
  (forall r,
      asChannelRPCCreator channel = None ->
      asChannelRPCer channel = Some r -> registers (Some r)) /\
  (asChannelRPCCreator channel = None ->
   asChannelRPCer channel = None ->
   handleChannelRPC c msg =
   (pushed c
      (ack req
         {| Type_ := PVStatus_FATAL;
            pvdata.Message :=
              "channel " +:+ fmt_q (Name channel) +:+ " (ID "
              +:+ fmt_x (ServerChannelID req)
              +:+ ") does not support RPC" |}),
    Returned None)).
Proof.
  intros Hd Hch Hdata Hsub Hok registers.
  assert (Hreg : forall rpcer,
    match asChannelRPCCreator channel with
    | Some create => create args = (rpcer, None)
    | None => asChannelRPCer channel = rpcer /\ rpcer <> None
    end -> registers rpcer).
  { intros rpcer Hex Hre.
    pose proof (body_init_registers c req channel args rpcer
                  Hch Hdata Hsub Hex Hre) as Hb.
    eexists. exists (length (heap c)). split.
    - apply (handleChannelRPC_reply c msg req _ None Hd Hb);
        [discriminate | exact Hok].
    - simpl. repeat split.
      + apply lookup_insert_eq.
      + rewrite lookup_app_r by lia. now rewrite Nat.sub_diag. }
  repeat split.
  - intros create rpcer Hcr Hca. apply Hreg. now rewrite Hcr.
  - intros r Hcr Hr. apply Hreg. rewrite Hcr. now split.
  - intros Hcr Hr.
    apply (handleChannelRPC_reply c msg req c
             (Some (err_errorString
                ("channel " +:+ fmt_q (Name channel) +:+ " (ID "
                 +:+ fmt_x (ServerChannelID req)
                 +:+ ") does not support RPC"))) Hd);
      [|discriminate|exact Hok].
    unfold handleChannelRPCBody. rewrite Hch, Hdata.
    apply Z.eqb_eq in Hsub. now rewrite Hsub, Hcr, Hr.
Qed.

(** ** EXEC *)

Lemma body_exec_unregistered c req channel args :
  channels c !! ServerChannelID req = Some channel ->
  Data (PVRequest req) = PVField_structure args ->
  Subcommand req <> CHANNEL_RPC_INIT ->
  requests c !! RequestID req = None ->
  handleChannelRPCBody c req = (c, Panicked nil_dereference).
Proof.
  intros Hch Hdata Hsub Hr. unfold handleChannelRPCBody.
  rewrite Hch, Hdata, Hr. apply Z.eqb_neq in Hsub. now rewrite Hsub.
Qed.

Lemma body_exec_not_READY c req channel args r ro :
  channels c !! ServerChannelID req = Some channel ->
  Data (PVRequest req) = PVField_structure args ->
  Subcommand req <> CHANNEL_RPC_INIT ->
  requests c !! RequestID req = Some r -> heap c !! r = Some ro ->
  status ro <> READY ->
  handleChannelRPCBody c req =
  (c, Returned (Some (err_PVStatus
        {| Type_ := PVStatus_ERROR;
           pvdata.Message := "request not READY" |}))).
Proof.
  intros Hch Hdata Hsub Hr Hro Hst. unfold handleChannelRPCBody.
  rewrite Hch, Hdata, Hr, Hro. apply Z.eqb_neq in Hsub. rewrite Hsub.
  now destruct (decide (status ro <> READY)).
Qed.

(** An EXEC of a READY request whose doer is an executor marks the request
    REQUEST_IN_PROGRESS, spawns the task for this request and this
    message, and returns the sentinel. *)
Lemma body_exec_spawns c req channel args r ro rpcer :
  channels c !! ServerChannelID req = Some channel ->
  Data (PVRequest req) = PVField_structure args ->
  Subcommand req <> CHANNEL_RPC_INIT ->
  requests c !! RequestID req = Some r -> heap c !! r = Some ro ->
  status ro = READY -> doer ro = iface_ChannelRPCer rpcer ->
  handleChannelRPCBody c req =
  (set_g (g c ++ [ {| t_r := r; t_rpcer := rpcer; t_args := args;
                      t_req := req; t_responded := false |} ])
     (set_heap
        (<[r := set_cancel true (set_status REQUEST_IN_PROGRESS ro)]>
           (heap c)) c),
   Returned (Some err_asyncOperation)).
Proof.
  intros Hch Hdata Hsub Hr Hro Hst Hdo. unfold handleChannelRPCBody.
  rewrite Hch, Hdata, Hr, Hro, Hdo. apply Z.eqb_neq in Hsub. rewrite Hsub.
  destruct (decide (status ro <> READY)) as [Hn|_];
    [now destruct Hn | reflexivity].
Qed.

(** A task is spawned by nothing but an EXEC of a READY request. *)
Lemma body_spawns_only_READY c req c' o :
  handleChannelRPCBody c req = (c', o) -> g c' <> g c ->
  Subcommand req <> CHANNEL_RPC_INIT /\
  exists r ro,
    requests c !! RequestID req = Some r /\ heap c !! r = Some ro /\
    status ro = READY.
Proof.
  unfold handleChannelRPCBody.
  destruct (channels c !! ServerChannelID req) as [channel|];
    [|intros [= <- <-] Hg; now destruct Hg].
  destruct (Data (PVRequest req)) as [|args|ty];
    try (intros [= <- <-] Hg; now destruct Hg).
  destruct (Subcommand req =? CHANNEL_RPC_INIT) eqn:Hsub.
  - intros Hb Hg. exfalso. apply Hg. clear Hg.
    assert (Hadd : forall c1 r c2 o2,
      addRequest c1 (RequestID req) r = (c2, o2) -> g c2 = g c1).
    { intros c1 r c2 o2. unfold addRequest.
      destruct (requests c1 !! RequestID req) as [existing|];
        [destruct (heap c1 !! existing) as [e|];
         [destruct (decide (status e <> DESTROYED))|]|];
        now intros [= <- <-]. }
    destruct (asChannelRPCCreator channel) as [create|].
    + destruct (create args) as [rpcer [err|]]; [now injection Hb as <- <-|].
      now apply Hadd in Hb.
    + destruct (asChannelRPCer channel) as [x|]; [|now injection Hb as <- <-].
      now apply Hadd in Hb.
  - apply Z.eqb_neq in Hsub.
    destruct (requests c !! RequestID req) as [r|] eqn:Hr;
      [|intros [= <- <-] Hg; now destruct Hg].
    destruct (heap c !! r) as [ro|] eqn:Hro;
      [|intros [= <- <-] Hg; now destruct Hg].
    destruct (decide (status ro <> READY)) as [Hn|Hrdy];
      [intros [= <- <-] Hg; now destruct Hg|].
    intros _ _. split; [exact Hsub|]. exists r, ro.
    split; [reflexivity|]. split; [exact Hro|].
    destruct (decide (status ro = READY)) as [E|E]; [exact E | now destruct Hrdy].
Qed.

(** C3.  In every state of a connection, when a task spawned by an EXEC
    returns, the request it was spawned for, which is still the one the
    table has under the request ID, is DESTROYED if the sub-command of
    the EXEC has the DESTROY flag and READY if not, whatever the executor
    of the task returns. *)
Theorem exec_completion_status c i t :
  reachable c -> g c !! i = Some t ->
  exists ro,
    requests (task_finish c i t) !! RequestID (t_req t) = Some (t_r t) /\
    heap (task_finish c i t) !! t_r t = Some ro /\
    status ro =
      if has_DESTROY (Subcommand (t_req t)) then DESTROYED else READY.
Proof.
  intros Hreach Hi. pose proof (wf_reachable c Hreach) as W.
  destruct (wf_tasks c W i t Hi) as (Hr & ro & Hro & _).
  eexists. split; [exact Hr|]. split.
  - rewrite task_finish_heap, Hro.
    destruct (decide (t_r t = t_r t)) as [_|Hne]; [reflexivity|].
    now destruct Hne.
  - reflexivity.
Qed.

(** C10 (amended).  In every state of a connection, the doer of a request
    in the table is a value that implements the RPC executor interface or
    the nil interface value, never a value of another type, and it is not
    nil when the providers of the server hand out only channels whose
    factory returns an executor whenever it returns no error.  An EXEC
    on a READY request ends in the error "request not for RPC" exactly
    when the doer is nil. *)
Theorem request_doer c id r ro :
  reachable c ->
  requests c !! id = Some r -> heap c !! r = Some ro ->
  (doer ro = iface_nil \/ exists rpcer, doer ro = iface_ChannelRPCer rpcer) /\
  (careful_server (srv c) -> exists rpcer, doer ro = iface_ChannelRPCer rpcer) /\
  (forall req channel args,
      RequestID req = id ->
      channels c !! ServerChannelID req = Some channel ->
      Data (PVRequest req) = PVField_structure args ->
      Subcommand req <> CHANNEL_RPC_INIT ->
      status ro = READY ->
      (handleChannelRPCBody c req =
         (c, Returned (Some (err_errorString "request not for RPC")))
       <-> doer ro = iface_nil)).
Proof.
  intros Hreach Hr Hro. pose proof (wf_reachable c Hreach) as W.
  assert (Hshape :
    doer ro = iface_nil \/ exists rpcer, doer ro = iface_ChannelRPCer rpcer).
  { destruct (doer ro) as [|rpcer|ty] eqn:Hdo;
      [now left | right; now exists rpcer|].
    destruct (wf_doer c W r ro ty Hro Hdo). }
  split; [exact Hshape|]. split.
  - intros Hcare. destruct Hshape as [Hnil | Hex]; [|exact Hex].
    destruct (wf_executor c W Hcare r ro Hro Hnil).
  - intros req channel args <- Hch Hdata Hsub Hst.
    unfold handleChannelRPCBody.
    rewrite Hch, Hdata, Hr, Hro. apply Z.eqb_neq in Hsub. rewrite Hsub.
    destruct (decide (status ro <> READY)) as [Hn|_]; [now destruct Hn|].
    destruct Hshape as [-> | [rpcer ->]]; [now split|].
    split; [intros [=] | discriminate].
Qed.

End properties.

(** * The sample connection *)

Lemma serving_after c m :
  @serving pva c ->
  snd (@handleServerOnePacket pva c (inr m)) = Returned None ->
  @serving pva (after c m).
Proof.
  intros Hs Ho. apply (@serving_packet pva c (inr m)); [exact Hs|].
  unfold after. destruct (handleServerOnePacket c (inr m)) as [c' o].
  simpl in *. now subst o.
Qed.

Lemma serving_c_start : @serving pva c_start.
Proof. apply (@serving_start pva sample_srv k0). reflexivity. Qed.

Lemma serving_c_open_echo : @serving pva (c_open "echo").
Proof. apply serving_after; [apply serving_c_start | reflexivity]. Qed.

Lemma serving_c_ready : @serving pva c_ready.
Proof. apply serving_after; [apply serving_c_open_echo | reflexivity]. Qed.

Lemma serving_c_busy : @serving pva c_busy.
Proof. apply serving_after; [apply serving_c_ready | reflexivity]. Qed.

Lemma serving_c_done : @serving pva c_done.
Proof.
  apply (@serving_async pva c_responded).
  - apply (@serving_async pva c_busy); [apply serving_c_busy|].
    now apply (@async_respond pva c_busy 0%nat t_busy).
  - now apply (@async_finish pva c_responded 0%nat (set_responded t_busy)).
Qed.

Lemma serving_c_lazy : @serving pva c_lazy.
Proof.
  apply serving_after; [|reflexivity].
  apply serving_after; [apply serving_c_start | reflexivity].
Qed.

(** * The statements at the sample connection *)

(** C1.  On the sample connection channel 1 is open and request 5 was
    never initialised.  An EXEC of request 5 does not answer "request not
    READY": the table lookup gives a nil pointer and reading its status
    panics. *)
Theorem exec_without_init_panics :
  @serving pva (c_open "echo") /\
  requests (c_open "echo") !! 5 = None /\
  @handleServerOnePacket pva (c_open "echo") (inr (msg_rpc 1 5 0 args0)) =
    (c_open "echo", Panicked nil_dereference).
Proof.
  split; [apply serving_c_open_echo|]. split; reflexivity.
Qed.

Lemma errorToStatus_cases_witness :
  @errorToStatus pva (Some (err_errorString "boom")) =
  {| Type_ := PVStatus_FATAL; pvdata.Message := "boom" |}.
Proof.
  apply (proj2 (proj2 (proj2 (@errorToStatus_cases pva)))).
  intros s. discriminate.
Defined.

Lemma addRequest_reuse_rule_witness :
  (exists err, addRequest c_busy 5 0 = (c_busy, Returned (Some err))) /\
  (exists c',
      addRequest c_done 5 0 = (c', Returned None) /\
      requests c' = <[5 := 0%nat]> (requests c_done) /\
      requests c' !! 5 = Some 0%nat /\
      heap c' = heap c_done /\ channels c' = channels c_done /\
      g c' = g c_done).
Proof.
  split.
  - apply (proj1 (addRequest_reuse_rule c_busy 5 0) 0%nat
             {| doer := iface_ChannelRPCer echo_rpcer; cancel := true;
                status := REQUEST_IN_PROGRESS |});
      [reflexivity | reflexivity | discriminate].
  - apply (proj2 (addRequest_reuse_rule c_done 5 0)).
    right. exists 0%nat.
    exists {| doer := iface_ChannelRPCer echo_rpcer; cancel := true;
              status := DESTROYED |}.
    repeat split; reflexivity.
Defined.

Lemma unknown_command_ignored_witness :
  @handleServerOnePacket pva c_start (inr msg_unknown) =
  (c_start, Returned None).
Proof.
  apply (@unknown_command_ignored pva c_start msg_unknown); discriminate.
Defined.

Lemma wrong_number_of_channels_witness :
  exists resp,
    Type_ (resp_Status resp) = PVStatus_ERROR /\
    @handleCreateChannelRequest pva c_start msg_create_none =
      (let '(c', e) :=
         @conn_SendApp c_start 7 (pl_CreateChannelResponse resp)
       in (c', Returned e)) /\
    channels (fst (@handleCreateChannelRequest pva c_start msg_create_none))
      = channels c_start /\
    (sendErr (Conn c_start) = None ->
     @handleCreateChannelRequest pva c_start msg_create_none =
       (pushed c_start (App 7 (pl_CreateChannelResponse resp)),
        Returned None)).
Proof.
  apply (@wrong_number_of_channels pva c_start msg_create_none
           {| Channels := [] |}); [reflexivity | simpl; lia].
Defined.

(** C5, as stated, fails: an INIT on channel 9, which is not open, is
    answered with severity FATAL, which is not ERROR. *)
Lemma init_unknown_channel_not_ERROR :
  @handleChannelRPC pva c_start (msg_rpc 9 5 8 args0) =
    (pushed c_start
       (App 20 (pl_ChannelRPCResponseInit
          {| init_RequestID := 5; init_Subcommand := 8;
             init_Status :=
               {| Type_ := PVStatus_FATAL;
                  pvdata.Message := "unknown channel ID 9" |} |})),
     Returned None) /\
  PVStatus_FATAL <> PVStatus_ERROR.
Proof. split; [reflexivity | discriminate]. Qed.

Lemma init_unknown_channel_witness :
  exists c',
    @handleChannelRPC pva c_start (msg_rpc 9 5 8 args0) = (c', Returned None) /\
    sent (Conn c') =
      (sent (Conn c_start) ++
       [@ack pva (rpc_request 9 5 8 args0)
          {| Type_ := PVStatus_FATAL;
             pvdata.Message := "unknown channel ID 9" |}])%list /\
    requests c' = requests c_start /\ heap c' = heap c_start /\
    g c' = g c_start /\ channels c' = channels c_start.
Proof.
  apply (@init_unknown_channel pva c_start (msg_rpc 9 5 8 args0)
           (rpc_request 9 5 8 args0)); reflexivity.
Defined.

(** C8, as stated, fails: an INIT whose argument is not a structure is not
    an error of the handler.  [handleChannelRPC] returns [nil], the loop of
    [serve] goes on, and all that happened is that a status was sent for
    the request. *)
Lemma arguments_not_structure_is_a_status_reply :
  @handleChannelRPC pva (c_open "echo") (msg_rpc 1 5 8 PVField_nil) =
    (pushed (c_open "echo")
       (App 20 (pl_ChannelRPCResponseInit
          {| init_RequestID := 5; init_Subcommand := 8;
             init_Status :=
               {| Type_ := PVStatus_FATAL;
                  pvdata.Message :=
                    "RPC arguments were of type <nil>, expected PVStructure"
               |} |})),
     Returned None) /\
  @serving pva (after (c_open "echo") (msg_rpc 1 5 8 PVField_nil)).
Proof.
  split; [reflexivity|].
  apply serving_after; [apply serving_c_open_echo | reflexivity].
Qed.

Lemma arguments_not_structure_witness :
  exists text,
    @handleChannelRPCBody pva (c_open "echo") (rpc_request 1 5 8 PVField_nil) =
      (c_open "echo", Returned (Some (err_errorString text))) /\
    @handleChannelRPC pva (c_open "echo") (msg_rpc 1 5 8 PVField_nil) =
      (pushed (c_open "echo")
         (@ack pva (rpc_request 1 5 8 PVField_nil)
            {| Type_ := PVStatus_FATAL; pvdata.Message := text |}),
       Returned None).
Proof.
  apply (@arguments_not_structure pva (c_open "echo")
           (msg_rpc 1 5 8 PVField_nil) (rpc_request 1 5 8 PVField_nil));
    [reflexivity | intros s; discriminate | reflexivity].
Defined.

Lemma init_executor_witness :
  exists c' r,
    @handleChannelRPC pva (c_open "echo") (msg_rpc 1 5 8 args0) =
      (c', Returned None) /\
    requests c' !! 5 = Some r /\
    heap c' !! r =
      Some {| doer := iface_ChannelRPCer echo_rpcer; cancel := false;
              status := READY |} /\
    g c' = g (c_open "echo") /\
    sent (Conn c') =
      (sent (Conn (c_open "echo")) ++
       [@ack pva (rpc_request 1 5 8 args0) PVStatus_zero])%list.
Proof.
  apply (proj1 (proj2
    (@init_executor pva (c_open "echo") (msg_rpc 1 5 8 args0)
       (rpc_request 1 5 8 args0) echo_channel no_args
       eq_refl eq_refl eq_refl eq_refl eq_refl)) echo_rpcer eq_refl eq_refl).
  left. reflexivity.
Defined.

Lemma exec_completion_status_witness :
  g c_busy !! 0%nat = Some t_busy /\
  exists ro,
    requests (@task_finish pva c_busy 0 t_busy) !! 5 = Some 0%nat /\
    heap (@task_finish pva c_busy 0 t_busy) !! 0%nat = Some ro /\
    status ro = DESTROYED.
Proof.
  split; [reflexivity|].
  apply (@exec_completion_status pva c_busy 0%nat t_busy);
    [apply reachable_serving, serving_c_busy | reflexivity].
Defined.

(** C10, as stated, fails: the factory of the channel "lazy" returns no
    executor and no error, the INIT of request 5 stores a request whose
    doer is nil, and an EXEC of it ends in "request not for RPC". *)
Lemma nil_doer_is_stored :
  @serving pva c_lazy /\
  requests c_lazy !! 5 = Some 0%nat /\
  heap c_lazy !! 0%nat =
    Some {| doer := iface_nil; cancel := false; status := READY |} /\
  @handleChannelRPCBody pva c_lazy (rpc_request 1 5 0 args0) =
    (c_lazy, Returned (Some (err_errorString "request not for RPC"))).
Proof.
  split; [apply serving_c_lazy|]. repeat split; reflexivity.
Qed.

Lemma request_doer_witness :
  (doer {| doer := iface_ChannelRPCer echo_rpcer; cancel := false;
           status := READY |} = iface_nil \/
   exists rpcer,
     doer {| doer := iface_ChannelRPCer echo_rpcer; cancel := false;
             status := READY |} = iface_ChannelRPCer rpcer) /\
  (careful_server (srv c_ready) ->
   exists rpcer,
     doer {| doer := iface_ChannelRPCer echo_rpcer; cancel := false;
             status := READY |} = iface_ChannelRPCer rpcer) /\
  (forall req channel args,
      RequestID req = 5 ->
      channels c_ready !! ServerChannelID req = Some channel ->
      Data (PVRequest req) = PVField_structure args ->
      Subcommand req <> 8 ->
      READY = READY ->
      (@handleChannelRPCBody pva c_ready req =
         (c_ready, Returned (Some (err_errorString "request not for RPC")))
       <-> iface_ChannelRPCer echo_rpcer = iface_nil)).
Proof.
  apply (@request_doer pva c_ready 5 0%nat
           {| doer := iface_ChannelRPCer echo_rpcer; cancel := false;
              status := READY |});
    [apply reachable_serving, serving_c_ready | reflexivity | reflexivity].
Defined.

(** * More about the life of a connection *)

Section life_properties.

Context `{Imports}.

Implicit Types (c : serverConn) (t : task) (ro : request).

(** ** Every step is a [transition] *)

Lemma transition_store c c1 c2 :
  transition c c1 ->
  g c2 = g c1 -> requests c2 = requests c1 -> heap c2 = heap c1 ->
  transition c c2.
Proof.
  intros Htr Hg Hr Hh.
  destruct Htr as [Tg Tr Th | rpcer Tg Tr Th | rpcer id Tre Tg Tr Th
                  | req r ro rpcer args Ts Td Tq To Tst Tdo Tg Tr Th
                  | i t Ti Tg Tr Th | i t Ti Tg Tr Th];
    rewrite <- Hg in Tg; rewrite <- Hr in Tr; rewrite <- Hh in Th.
  - now apply tr_frame.
  - now apply (tr_alloc c c2 rpcer).
  - now apply (tr_register c c2 rpcer id).
  - now apply (tr_spawn c c2 req r ro rpcer args).
  - now apply (tr_respond c c2 i t).
  - now apply (tr_finish c c2 i t).
Qed.

Lemma transition_refl c : transition c c.
Proof. now apply tr_frame. Qed.

Lemma conn_SendApp_transition c c1 cmd p c2 e :
  transition c c1 -> conn_SendApp c1 cmd p = (c2, e) -> transition c c2.
Proof.
  intros Htr Hs. apply conn_SendApp_store in Hs as (_ & Hg & _ & Hr & Hh).
  now apply (transition_store c c1).
Qed.

Lemma init_transition c id rpcer c' o :
  wf c ->
  (let '(c1, r) :=
     new_request {| doer := iface_of rpcer; cancel := false;
                    status := READY |} c in
   addRequest c1 id r) = (c', o) ->
  transition c c'.
Proof.
  intros W. unfold new_request, addRequest. simpl.
  destruct (requests c !! id) as [existing|] eqn:Hex.
  - destruct (wf_requests c W id existing Hex) as [x Hx].
    rewrite (lookup_app_l_Some _ _ _ _ Hx).
    destruct (decide (status x <> DESTROYED)) as [Hlive | Hdead].
    + intros [= <- <-]. now apply (tr_alloc _ _ rpcer).
    + intros [= <- <-]. apply (tr_register _ _ rpcer id); try reflexivity.
      right. exists existing, x. repeat split; try assumption.
      now destruct (decide (status x = DESTROYED)).
  - intros [= <- <-]. apply (tr_register _ _ rpcer id); try reflexivity.
    now left.
Qed.

Lemma body_transition c req c' o :
  wf c -> handleChannelRPCBody c req = (c', o) ->
  transition c c' /\ Conn c' = Conn c /\ channels c' = channels c.
Proof.
  intros W. unfold handleChannelRPCBody.
  assert (Hsame : forall o', (c, o') = (c', o) ->
    transition c c' /\ Conn c' = Conn c /\ channels c' = channels c).
  { intros o' [= <- <-]. split; [apply transition_refl | now split]. }
  assert (Hinit : forall rpcer,
    (let '(c1, r) :=
       new_request {| doer := iface_of rpcer; cancel := false;
                      status := READY |} c in
     addRequest c1 (RequestID req) r) = (c', o) ->
    transition c c' /\ Conn c' = Conn c /\ channels c' = channels c).
  { intros rpcer Hb. split; [exact (init_transition c _ rpcer c' o W Hb)|].
    revert Hb. unfold new_request, addRequest. simpl.
    destruct (requests c !! RequestID req) as [existing|];
      [destruct (_ !! existing) as [e|];
       [destruct (decide (status e <> DESTROYED))|]|];
      now intros [= <- <-]. }
  destruct (channels c !! ServerChannelID req) as [channel|]; [|apply Hsame].
  destruct (Data (PVRequest req)) as [|args|ty] eqn:Hdata; try apply Hsame.
  destruct (Subcommand req =? CHANNEL_RPC_INIT) eqn:Hsub.
  - destruct (asChannelRPCCreator channel) as [create|].
    + destruct (create args) as [rpcer [err|]]; [apply Hsame | apply Hinit].
    + destruct (asChannelRPCer channel) as [r|]; [apply Hinit | apply Hsame].
  - apply Z.eqb_neq in Hsub.
    destruct (requests c !! RequestID req) as [r|] eqn:Hr; [|apply Hsame].
    destruct (heap c !! r) as [ro|] eqn:Hro; [|apply Hsame].
    destruct (decide (status ro <> READY)) as [Hn|Hrdy]; [apply Hsame|].
    destruct (doer ro) as [|rpcer|ty] eqn:Hdo; try apply Hsame.
    intros [= <- <-]. split; [|now split].
    apply (tr_spawn _ _ req r ro rpcer args); try assumption; try reflexivity.
    now destruct (decide (status ro = READY)).
Qed.

Lemma handleChannelRPC_transition c msg c' o :
  wf c -> handleChannelRPC c msg = (c', o) -> transition c c'.
Proof.
  intros W. unfold handleChannelRPC.
  destruct (Decode_ChannelRPCRequest msg) as [err|req].
  { intros [= <- <-]. apply transition_refl. }
  destruct (handleChannelRPCBody c req) as [c1 o1] eqn:Hb.
  destruct (body_transition c req c1 o1 W Hb) as (Htr & _).
  destruct o1 as [[e|]|p].
  - destruct e; try (now intros [= <- <-]);
      destruct (conn_SendApp c1 _ _) as [c2 e2] eqn:Hs; intros [= <- <-];
      exact (conn_SendApp_transition _ _ _ _ _ _ Htr Hs).
  - destruct (conn_SendApp c1 _ _) as [c2 e2] eqn:Hs; intros [= <- <-];
      exact (conn_SendApp_transition _ _ _ _ _ _ Htr Hs).
  - now intros [= <- <-].
Qed.

Lemma createChannel_store c id name c' res :
  createChannel c id name = (c', res) ->
  g c' = g c /\ requests c' = requests c /\ heap c' = heap c.
Proof.
  unfold createChannel.
  destruct (resolveChannel _ name) as [[ch|] [err|]]; now intros [= <- <-].
Qed.

Lemma packet_transition c next c' o :
  wf c -> handleServerOnePacket c next = (c', o) -> transition c c'.
Proof.
  intros W. unfold handleServerOnePacket.
  destruct next as [err|msg];
    [intros [= <- <-]; apply transition_refl|].
  destruct (serverDispatch !! MessageCommand msg) as [f|] eqn:Hf;
    [|intros [= <- <-]; apply transition_refl].
  destruct (serverDispatch_lookup _ _ Hf) as [-> | [-> | [-> | ->]]].
  - unfold handleConnectionValidation.
    destruct (Decode_ConnectionValidationResponse msg) as [err|resp];
      [intros [= <- <-]; apply transition_refl|].
    destruct (conn_SendApp c _ _) as [c1 e] eqn:Hs. intros [= <- <-].
    exact (conn_SendApp_transition _ _ _ _ _ _ (transition_refl c) Hs).
  - unfold handleCreateChannelRequest.
    destruct (Decode_CreateChannelRequest msg) as [err|req];
      [intros [= <- <-]; apply transition_refl|].
    destruct (Channels req) as [|ch [|ch' rest]].
    + destruct (conn_SendApp c _ _) as [c2 e] eqn:Hs. intros [= <- <-].
      exact (conn_SendApp_transition _ _ _ _ _ _ (transition_refl c) Hs).
    + destruct (createChannel c (ClientChannelID ch) (ChannelName ch))
        as [c1 [channel err]] eqn:Hc.
      apply createChannel_store in Hc as (Hg & Hr & Hh).
      destruct (conn_SendApp c1 _ _) as [c2 e] eqn:Hs. intros [= <- <-].
      refine (conn_SendApp_transition _ c1 _ _ _ _ _ Hs).
      now apply tr_frame.
    + destruct (conn_SendApp c _ _) as [c2 e] eqn:Hs. intros [= <- <-].
      exact (conn_SendApp_transition _ _ _ _ _ _ (transition_refl c) Hs).
  - now apply handleChannelRPC_transition.
  - unfold handleSearchRequest.
    destruct (Decode_SearchRequest msg) as [err|req];
      [intros [= <- <-]; apply transition_refl|].
    destruct (search_Search (Conn c) req) as [k e]. intros [= <- <-].
    now apply tr_frame.
Qed.

Lemma async_transition c c' : async_step c c' -> transition c c'.
Proof.
  intros [i t Hi _ | i t Hi _ | e].
  - unfold task_respond. destruct (conn_SendApp c _ _) as [c1 e] eqn:Hs.
    apply conn_SendApp_store in Hs as (_ & Hg & _ & Hr & Hh).
    apply (tr_respond _ _ i t); simpl; congruence.
  - now apply (tr_finish _ _ i t).
  - now apply tr_frame.
Qed.

Lemma conn_step_transition c c' : wf c -> conn_step c c' -> transition c c'.
Proof.
  intros W [(next & o & Hp) | Ha].
  - exact (packet_transition c next c' o W Hp).
  - now apply async_transition.
Qed.

Lemma serve_start_store c c' e :
  serve_start c = (c', e) ->
  g c' = g c /\ requests c' = requests c /\ heap c' = heap c.
Proof.
  unfold serve_start. destruct (SendCtrl _ _ _) as [k [err|]].
  - now intros [= <- <-].
  - destruct (conn_SendApp _ _ _) as [c1 e1] eqn:Hs. intros [= <- <-].
    apply conn_SendApp_store in Hs as (_ & Hg & _ & Hr & Hh).
    now rewrite Hg, Hr, Hh.
Qed.

(** An induction principle for what is true of the tasks, the table and
    the heap in every state of a connection. *)
Lemma reachable_invariant (P : serverConn -> Prop) :
  (forall c, g c = [] -> requests c = ∅ -> heap c = [] -> P c) ->
  (forall c c', wf c -> P c -> transition c c' -> P c') ->
  forall c, reachable c -> P c.
Proof.
  intros Hinit Hstep.
  assert (Hstart : forall s k c e, serve_start (newConn s k) = (c, e) -> P c).
  { intros s k c e Hs. apply serve_start_store in Hs as (Hg & Hr & Hh).
    now apply Hinit. }
  assert (Hserving : forall c, serving c -> P c).
  { induction 1 as [s k c Hs | c next c' Hc IH Hp | c c' Hc IH Ha].
    - now apply (Hstart s k c None).
    - apply (Hstep c c' (wf_serving c Hc) IH).
      exact (packet_transition c next c' _ (wf_serving c Hc) Hp).
    - apply (Hstep c c' (wf_serving c Hc) IH). now apply async_transition. }
  induction 1 as [s k c e Hs | c Hs | c next c' e Hs Hp | c c' Hc IH Ha].
  - now apply (Hstart s k c e).
  - now apply Hserving.
  - apply (Hstep c c' (wf_serving c Hs) (Hserving c Hs)).
    exact (packet_transition c next c' _ (wf_serving c Hs) Hp).
  - apply (Hstep c c' (wf_reachable c Hc) IH). now apply async_transition.
Qed.

(** ** What is true of every request object *)

(** A property of request objects that a new READY object has, that the
    start of an execution keeps and that the end of an execution keeps,
    holds of every object of every state. *)
Lemma heap_objects_invariant (Q : request -> Prop) :
  (forall rpcer,
      Q {| doer := iface_of rpcer; cancel := false; status := READY |}) ->
  (forall ro, Q ro -> status ro = READY ->
      Q (set_cancel true (set_status REQUEST_IN_PROGRESS ro))) ->
  (forall ro s, Q ro -> status ro = REQUEST_IN_PROGRESS ->
      s = READY \/ s = DESTROYED -> Q (set_status s ro)) ->
  forall c, reachable c -> forall r ro, heap c !! r = Some ro -> Q ro.
Proof.
  intros Hnew Hstart Hend.
  apply (reachable_invariant
           (fun c => forall r ro, heap c !! r = Some ro -> Q ro)).
  - intros c _ _ Hh r ro. rewrite Hh, lookup_nil. discriminate.
  - intros c c' W IH Htr r ro.
    destruct Htr as [Tg Tr Th | rpcer Tg Tr Th | rpcer id Tre Tg Tr Th
                    | req r0 ro0 rpcer args Ts Td Tq To Tst Tdo Tg Tr Th
                    | i t Ti Tg Tr Th | i t Ti Tg Tr Th]; rewrite Th.
    + apply IH.
    + intros Hl. apply lookup_app_Some in Hl as [Hl | [_ Hl]];
        [now apply (IH r)|].
      apply list_lookup_singleton_Some in Hl as [_ <-]. apply Hnew.
    + intros Hl. apply lookup_app_Some in Hl as [Hl | [_ Hl]];
        [now apply (IH r)|].
      apply list_lookup_singleton_Some in Hl as [_ <-]. apply Hnew.
    + destruct (decide (r = r0)) as [-> | Hne].
      * rewrite list_lookup_insert_eq by now apply lookup_lt_Some with ro0.
        intros [= <-]. apply Hstart; [now apply (IH r0) | assumption].
      * rewrite list_lookup_insert_ne by congruence. apply IH.
    + apply IH.
    + rewrite task_finish_heap.
      destruct (decide (r = t_r t)) as [-> | Hne]; [|apply IH].
      destruct (wf_tasks c W i t Ti) as (_ & x & Hx & Hs). rewrite Hx.
      intros [= <-]. apply Hend; [now apply (IH (t_r t)) | assumption|].
      destruct (has_DESTROY _); [now right | now left].
Qed.

(** X1.  In every state of a connection a request is READY,
    REQUEST_IN_PROGRESS or DESTROYED, never INIT or CANCELLED, and a
    request without a cancellation handle is READY: it has not been
    executed yet. *)
Theorem request_status_domain c r ro :
  reachable c -> heap c !! r = Some ro ->
  (status ro = READY \/ status ro = REQUEST_IN_PROGRESS \/
   status ro = DESTROYED) /\
  (cancel ro = false -> status ro = READY).
Proof.
  intros Hreach.
  apply (heap_objects_invariant
           (fun ro =>
              (status ro = READY \/ status ro = REQUEST_IN_PROGRESS \/
               status ro = DESTROYED) /\
              (cancel ro = false -> status ro = READY))); try assumption.
  - intros rpcer. simpl. split; [now left | reflexivity].
  - intros x _ _. simpl. split; [right; now left | discriminate].
  - intros x s [_ Hc] Hs Hsd. simpl. split.
    + destruct Hsd as [-> | ->]; [now left | right; now right].
    + intros Hf. specialize (Hc Hf). rewrite Hc in Hs. discriminate.
Qed.

(** ** What is true of every task in flight *)

Lemma task_origin_invariant c :
  reachable c ->
  forall i t, g c !! i = Some t ->
    Subcommand (t_req t) <> CHANNEL_RPC_INIT /\
    Data (PVRequest (t_req t)) = PVField_structure (t_args t) /\
    exists ro,
      heap c !! t_r t = Some ro /\ doer ro = iface_ChannelRPCer (t_rpcer t).
Proof.
  revert c.
  apply (reachable_invariant
           (fun c => forall i t, g c !! i = Some t ->
              Subcommand (t_req t) <> CHANNEL_RPC_INIT /\
              Data (PVRequest (t_req t)) = PVField_structure (t_args t) /\
              exists ro,
                heap c !! t_r t = Some ro /\
                doer ro = iface_ChannelRPCer (t_rpcer t))).
  - intros c Hg _ _ i t. rewrite Hg, lookup_nil. discriminate.
  - intros c c' W IH Htr i t.
    destruct Htr as [Tg Tr Th | rpcer Tg Tr Th | rpcer id Tre Tg Tr Th
                    | req r0 ro0 rpcer args Ts Td Tq To Tst Tdo Tg Tr Th
                    | j u Tj Tg Tr Th | j u Tj Tg Tr Th]; rewrite Tg, Th.
    + apply IH.
    + intros Hl. destruct (IH i t Hl) as (H1 & H2 & x & Hx & Hd).
      repeat split; try assumption. exists x. split; [|assumption].
      now apply lookup_app_l_Some.
    + intros Hl. destruct (IH i t Hl) as (H1 & H2 & x & Hx & Hd).
      repeat split; try assumption. exists x. split; [|assumption].
      now apply lookup_app_l_Some.
    + intros Hl. apply lookup_app_Some in Hl as [Hl | [_ Hl]].
      * destruct (IH i t Hl) as (H1 & H2 & x & Hx & Hd).
        repeat split; try assumption.
        destruct (decide (t_r t = r0)) as [E | Hne].
        -- rewrite E in *. rewrite To in Hx. injection Hx as <-.
           eexists. split; [now apply list_lookup_insert_eq,
                              lookup_lt_Some with ro0|].
           exact Hd.
        -- exists x. split; [|assumption].
           now rewrite list_lookup_insert_ne by congruence.
      * apply list_lookup_singleton_Some in Hl as [_ <-]. simpl.
        repeat split; try assumption. eexists. split.
        -- now apply list_lookup_insert_eq, lookup_lt_Some with ro0.
        -- exact Tdo.
    + intros Hl. destruct (decide (i = j)) as [-> | Hne].
      * rewrite list_lookup_insert_eq in Hl by now apply lookup_lt_Some with u.
        injection Hl as <-. simpl. now apply (IH j).
      * rewrite list_lookup_insert_ne in Hl by congruence. now apply (IH i).
    + intros Hl. apply lookup_delete_task in Hl as (i' & Hi' & _ & _).
      destruct (IH i' t Hi') as (H1 & H2 & x & Hx & Hd).
      repeat split; try assumption.
      rewrite task_finish_heap, Hx.
      destruct (decide (t_r t = t_r u)); eexists; (split; [reflexivity|]);
        exact Hd.
Qed.

(** X2.  In every state of a connection a task in flight comes from an
    EXEC: the sub-command of its message is not INIT, its arguments are the
    structure of that message, its executor is the doer of the request the
    table has under the request ID of the message, and that request is
    REQUEST_IN_PROGRESS with a cancellation handle. *)
Theorem task_origin c i t :
  reachable c -> g c !! i = Some t ->
  Subcommand (t_req t) <> CHANNEL_RPC_INIT /\
  Data (PVRequest (t_req t)) = PVField_structure (t_args t) /\
  exists r ro,
    requests c !! RequestID (t_req t) = Some r /\ heap c !! r = Some ro /\
    doer ro = iface_ChannelRPCer (t_rpcer t) /\
    status ro = REQUEST_IN_PROGRESS /\ cancel ro = true.
Proof.
  intros Hreach Hi.
  destruct (task_origin_invariant c Hreach i t Hi) as (H1 & H2 & ro & Hro & Hd).
  destruct (wf_tasks c (wf_reachable c Hreach) i t Hi) as (Hr & x & Hx & Hs).
  rewrite Hro in Hx. injection Hx as <-.
  repeat split; try assumption. exists (t_r t), ro.
  repeat split; try assumption.
  assert (Hq : forall rq, heap c !! t_r t = Some rq ->
            cancel rq = false -> status rq = READY).
  { intros rq Hrq.
    apply (heap_objects_invariant
             (fun rq => cancel rq = false -> status rq = READY))
      with (c := c) (r := t_r t); try assumption.
    - reflexivity.
    - discriminate.
    - intros y s Hy Hys _ Hf. simpl in Hf. specialize (Hy Hf).
      rewrite Hy in Hys. discriminate. }
  specialize (Hq ro Hro). destruct (cancel ro); [reflexivity|].
  specialize (Hq eq_refl). rewrite Hq in Hs. discriminate.
Qed.

(** X3.  In every state of a connection at most one task is in flight for
    a request ID. *)
Theorem one_task_per_request c i j t u :
  reachable c -> g c !! i = Some t -> g c !! j = Some u ->
  RequestID (t_req t) = RequestID (t_req u) -> i = j.
Proof.
  intros Hreach Hi Hj E. pose proof (wf_reachable c Hreach) as W.
  destruct (wf_tasks c W i t Hi) as (Ht & _).
  destruct (wf_tasks c W j u Hj) as (Hu & _).
  rewrite E, Hu in Ht. injection Ht as Ht.
  now apply (wf_tasks_distinct c W i j t u).
Qed.

(** ** What a step never does *)

(** X4.  A step of a connection keeps every request object at its
    address, with the doer it was created with; a DESTROYED object stays
    DESTROYED. *)
Theorem objects_are_kept c c' r ro :
  reachable c -> conn_step c c' -> heap c !! r = Some ro ->
  exists ro',
    heap c' !! r = Some ro' /\ doer ro' = doer ro /\
    (status ro = DESTROYED -> status ro' = DESTROYED).
Proof.
  intros Hreach Hstep Hro. pose proof (wf_reachable c Hreach) as W.
  destruct (conn_step_transition c c' W Hstep)
    as [Tg Tr Th | rpcer Tg Tr Th | rpcer id Tre Tg Tr Th
       | req r0 ro0 rpcer args Ts Td Tq To Tst Tdo Tg Tr Th
       | i t Ti Tg Tr Th | i t Ti Tg Tr Th]; rewrite Th.
  - exists ro. now rewrite Hro.
  - exists ro. split; [now apply lookup_app_l_Some | now split].
  - exists ro. split; [now apply lookup_app_l_Some | now split].
  - destruct (decide (r = r0)) as [-> | Hne].
    + rewrite To in Hro. injection Hro as <-. eexists. split.
      * now apply list_lookup_insert_eq, lookup_lt_Some with ro0.
      * split; [reflexivity|]. intros Hd. rewrite Hd in Tst. discriminate.
    + exists ro. rewrite list_lookup_insert_ne by congruence. now split.
  - exists ro. now rewrite Hro.
  - rewrite task_finish_heap, Hro.
    destruct (decide (r = t_r t)) as [-> | Hne].
    + eexists. split; [reflexivity|]. split; [reflexivity|].
      intros Hd. destruct (wf_tasks c W i t Ti) as (_ & x & Hx & Hs).
      rewrite Hro in Hx. injection Hx as <-. rewrite Hd in Hs. discriminate.
    + exists ro. now split.
Qed.

(** X5.  A step of a connection never removes an entry of the request
    table, and it leaves the entry of a request that is not DESTROYED
    pointing to the same request. *)
Theorem table_entries_are_kept c c' id r ro :
  reachable c -> conn_step c c' ->
  requests c !! id = Some r -> heap c !! r = Some ro ->
  exists r',
    requests c' !! id = Some r' /\ (status ro <> DESTROYED -> r' = r).
Proof.
  intros Hreach Hstep Hr Hro. pose proof (wf_reachable c Hreach) as W.
  destruct (conn_step_transition c c' W Hstep)
    as [Tg Tr Th | rpcer Tg Tr Th | rpcer id' Tre Tg Tr Th
       | req r0 ro0 rpcer args Ts Td Tq To Tst Tdo Tg Tr Th
       | i t Ti Tg Tr Th | i t Ti Tg Tr Th]; rewrite Tr;
    try (exists r; now split).
  destruct (decide (id' = id)) as [-> | Hne].
  - rewrite lookup_insert_eq. eexists. split; [reflexivity|].
    intros Hlive. exfalso.
    destruct Tre as [Hnone | (r1 & x & Hr1 & Hx & Hd)]; [congruence|].
    rewrite Hr in Hr1. injection Hr1 as <-. rewrite Hro in Hx.
    injection Hx as <-. now apply Hlive.
  - rewrite lookup_insert_ne by congruence. exists r. now split.
Qed.

(** ** The answers of [handleChannelRPC] *)

(** X6.  An EXEC of a request that is in the table but not READY (it is
    being executed, or it is DESTROYED) is answered with the status ERROR
    "request not READY"; nothing is started and nothing else changes. *)
Theorem exec_not_READY_reply c msg req channel args r ro :
  Decode_ChannelRPCRequest msg = inr req ->
  channels c !! ServerChannelID req = Some channel ->
  Data (PVRequest req) = PVField_structure args ->
  Subcommand req <> CHANNEL_RPC_INIT ->
  requests c !! RequestID req = Some r -> heap c !! r = Some ro ->
  status ro <> READY ->
  sendErr (Conn c) = None ->
  handleChannelRPC c msg =
  (pushed c (ack req {| Type_ := PVStatus_ERROR;
                        pvdata.Message := "request not READY" |}),
   Returned None).
Proof.
  intros Hd Hch Hdata Hsub Hr Hro Hst Hok.
  apply (handleChannelRPC_reply c msg req c
           (Some (err_PVStatus {| Type_ := PVStatus_ERROR;
                                  pvdata.Message := "request not READY" |}))
           Hd); [|discriminate | exact Hok].
  now apply (body_exec_not_READY c req channel args r ro).
Qed.

Lemma body_panics c req c' p :
  wf c -> handleChannelRPCBody c req = (c', Panicked p) ->
  c' = c /\ p = nil_dereference /\
  Subcommand req <> CHANNEL_RPC_INIT /\
  requests c !! RequestID req = None /\
  exists channel args,
    channels c !! ServerChannelID req = Some channel /\
    Data (PVRequest req) = PVField_structure args.
Proof.
  intros W. unfold handleChannelRPCBody.
  destruct (channels c !! ServerChannelID req) as [channel|]; [|discriminate].
  destruct (Data (PVRequest req)) as [|args|ty]; try discriminate.
  destruct (Subcommand req =? CHANNEL_RPC_INIT) eqn:Hsub.
  - assert (Hinit : forall rpcer,
      (let '(c1, r) :=
         new_request {| doer := iface_of rpcer; cancel := false;
                        status := READY |} c in
       addRequest c1 (RequestID req) r) = (c', Panicked p) -> False).
    { intros rpcer. unfold new_request, addRequest. simpl.
      destruct (requests c !! RequestID req) as [existing|] eqn:Hex;
        [|discriminate].
      destruct (wf_requests c W _ existing Hex) as [x Hx].
      rewrite (lookup_app_l_Some _ _ _ _ Hx).
      destruct (decide (status x <> DESTROYED)); discriminate. }
    destruct (asChannelRPCCreator channel) as [create|].
    + destruct (create args) as [rpcer [err|]]; [discriminate|].
      intros Hb. destruct (Hinit _ Hb).
    + destruct (asChannelRPCer channel) as [x|]; [|discriminate].
      intros Hb. destruct (Hinit _ Hb).
  - apply Z.eqb_neq in Hsub.
    destruct (requests c !! RequestID req) as [r|] eqn:Hr.
    + destruct (wf_requests c W _ r Hr) as [ro Hro]. rewrite Hro.
      destruct (decide (status ro <> READY)); [discriminate|].
      destruct (doer ro); discriminate.
    + intros [= <- <-]. repeat split; try assumption.
      now exists channel, args.
Qed.

(** X7.  In every state of a connection, with a working transport, a
    CHANNEL_RPC message that decodes never makes [handleChannelRPC] return
    an error: the handler returns [nil], or it panics, and it panics only
    for an EXEC, on an open channel and with a structure as argument, of a
    request ID that the table does not have. *)
Theorem rpc_returns_nil_or_panics c msg req :
  reachable c ->
  Decode_ChannelRPCRequest msg = inr req ->
  sendErr (Conn c) = None ->
  (exists c', handleChannelRPC c msg = (c', Returned None)) \/
  (handleChannelRPC c msg = (c, Panicked nil_dereference) /\
   Subcommand req <> CHANNEL_RPC_INIT /\
   requests c !! RequestID req = None /\
   exists channel args,
     channels c !! ServerChannelID req = Some channel /\
     Data (PVRequest req) = PVField_structure args).
Proof.
  intros Hreach Hd Hok. pose proof (wf_reachable c Hreach) as W.
  destruct (handleChannelRPCBody c req) as [c1 o1] eqn:Hb.
  destruct o1 as [err|p].
  - left. destruct (body_transition c req c1 _ W Hb) as (_ & Hconn & _).
    destruct (decide (err = Some err_asyncOperation)) as [-> | Hna].
    + exists c1. unfold handleChannelRPC. now rewrite Hd, Hb.
    + eexists. apply (handleChannelRPC_reply c msg req c1 err Hd Hb Hna).
      now rewrite Hconn.
  - right. destruct (body_panics c req c1 p W Hb) as (-> & -> & Hrest).
    split; [|exact Hrest]. unfold handleChannelRPC. now rewrite Hd, Hb.
Qed.

(** X8.  An INIT for a request ID whose request is not DESTROYED, on a
    channel that would give an executor, is answered with a status of
    severity FATAL that names the ID and the status of the request; the
    table, the request and the tasks in flight are as before. *)
Theorem init_live_id_rejected c msg req channel args r ro :
  Decode_ChannelRPCRequest msg = inr req ->
  channels c !! ServerChannelID req = Some channel ->
  Data (PVRequest req) = PVField_structure args ->
  Subcommand req = CHANNEL_RPC_INIT ->
  match asChannelRPCCreator channel with
  | Some create => snd (create args) = None
  | None => asChannelRPCer channel <> None
  end ->
  requests c !! RequestID req = Some r -> heap c !! r = Some ro ->
  status ro <> DESTROYED ->
  sendErr (Conn c) = None ->
  exists c',
    handleChannelRPC c msg = (c', Returned None) /\
    sent (Conn c') =
      (sent (Conn c) ++
       [ack req
          {| Type_ := PVStatus_FATAL;
             pvdata.Message :=
               "request ID " +:+ fmt_x (RequestID req)
               +:+ " already exists with status "
               +:+ requestStatusNames (status ro) |}])%list /\
    requests c' = requests c /\ heap c' !! r = Some ro /\ g c' = g c.
Proof.
  intros Hd Hch Hdata Hsub Hex Hr Hro Hlive Hok.
  assert (Hb : exists rpcer,
    handleChannelRPCBody c req =
    (set_heap (heap c ++ [ {| doer := iface_of rpcer; cancel := false;
                              status := READY |} ]) c,
     Returned (Some (err_errorString
        ("request ID " +:+ fmt_x (RequestID req)
         +:+ " already exists with status "
         +:+ requestStatusNames (status ro)))))).
  { assert (Hadd : forall rpcer,
      (let '(c1, r1) :=
         new_request {| doer := iface_of rpcer; cancel := false;
                        status := READY |} c in
       addRequest c1 (RequestID req) r1) =
      (set_heap (heap c ++ [ {| doer := iface_of rpcer; cancel := false;
                                status := READY |} ]) c,
       Returned (Some (err_errorString
          ("request ID " +:+ fmt_x (RequestID req)
           +:+ " already exists with status "
           +:+ requestStatusNames (status ro)))))).
    { intros rpcer. unfold new_request.
      apply (addRequest_live _ _ _ r ro); [exact Hr| |exact Hlive].
      simpl. now apply lookup_app_l_Some. }
    unfold handleChannelRPCBody. rewrite Hch, Hdata.
    apply Z.eqb_eq in Hsub. rewrite Hsub.
    destruct (asChannelRPCCreator channel) as [create|].
    - destruct (create args) as [rpcer err]. simpl in Hex. subst err.
      exists rpcer. apply Hadd.
    - destruct (asChannelRPCer channel) as [x|]; [|now destruct Hex].
      exists (Some x). apply Hadd. }
  destruct Hb as [rpcer Hb]. eexists. split.
  - apply (handleChannelRPC_reply c msg req _ _ Hd Hb);
      [discriminate | exact Hok].
  - simpl. repeat split. now apply lookup_app_l_Some.
Qed.

(** X9.  When the RPC factory of the channel returns an error, the INIT
    registers nothing and the error is what the answer carries: a status
    as it is, any other error as FATAL with its text.  When the error is
    the sentinel of asynchronous operations, no answer is sent at all. *)
Theorem init_factory_error c msg req channel args create rpcer e :
  Decode_ChannelRPCRequest msg = inr req ->
  channels c !! ServerChannelID req = Some channel ->
  Data (PVRequest req) = PVField_structure args ->
  Subcommand req = CHANNEL_RPC_INIT ->
  asChannelRPCCreator channel = Some create ->
  create args = (rpcer, Some e) ->
  sendErr (Conn c) = None ->
  handleChannelRPC c msg =
  (if decide (e = err_asyncOperation) then c
   else pushed c (ack req (errorToStatus (Some e))),
   Returned None).
Proof.
  intros Hd Hch Hdata Hsub Hcr Hca Hok.
  assert (Hb : handleChannelRPCBody c req = (c, Returned (Some e))).
  { unfold handleChannelRPCBody. rewrite Hch, Hdata.
    apply Z.eqb_eq in Hsub. now rewrite Hsub, Hcr, Hca. }
  destruct (decide (e = err_asyncOperation)) as [-> | Hna].
  - unfold handleChannelRPC. now rewrite Hd, Hb.
  - apply (handleChannelRPC_reply c msg req c _ Hd Hb); [congruence | exact Hok].
Qed.

(** X10.  An EXEC of a READY request whose doer is an executor gets no
    answer from the handler, which returns [nil] with the connection as it
    was; the request is REQUEST_IN_PROGRESS and a task is in flight.  With
    a working transport what that task sends is one exec response: the
    request ID and sub-command of the message, the status of the error the
    executor returned for the arguments, and the value it returned. *)
Theorem exec_accepted c msg req channel args r ro rpcer :
  Decode_ChannelRPCRequest msg = inr req ->
  channels c !! ServerChannelID req = Some channel ->
  Data (PVRequest req) = PVField_structure args ->
  Subcommand req <> CHANNEL_RPC_INIT ->
  requests c !! RequestID req = Some r -> heap c !! r = Some ro ->
  status ro = READY -> doer ro = iface_ChannelRPCer rpcer ->
  exists c1 t,
    handleChannelRPC c msg = (c1, Returned None) /\
    Conn c1 = Conn c /\ g c1 = (g c ++ [t])%list /\
    t_r t = r /\ t_responded t = false /\
    (exists ro1, heap c1 !! r = Some ro1 /\
                 status ro1 = REQUEST_IN_PROGRESS) /\
    (sendErr (Conn c) = None ->
     sent (Conn (task_respond c1 (length (g c)) t)) =
       (sent (Conn c) ++
        [App APP_CHANNEL_RPC
           (pl_ChannelRPCResponse
              {| exec_RequestID := RequestID req;
                 exec_Subcommand := Subcommand req;
                 exec_Status := errorToStatus (snd (ChannelRPC rpcer args));
                 PVResponseData := NewPVAny (fst (ChannelRPC rpcer args)) |})
        ])%list).
Proof.
  intros Hd Hch Hdata Hsub Hr Hro Hst Hdo.
  pose proof (body_exec_spawns c req channel args r ro rpcer
                Hch Hdata Hsub Hr Hro Hst Hdo) as Hb.
  eexists. eexists. split.
  { unfold handleChannelRPC. rewrite Hd, Hb. reflexivity. }
  simpl. do 4 (split; [reflexivity|]). split.
  - exists (set_cancel true (set_status REQUEST_IN_PROGRESS ro)).
    split; [|reflexivity].
    now apply list_lookup_insert_eq, lookup_lt_Some with ro.
  - intros Hok. unfold task_respond, task_response. simpl.
    rewrite conn_SendApp_ok by exact Hok. simpl.
    now destruct (ChannelRPC rpcer args).
Qed.

(** ** After a task has returned *)

(** X11.  In every state of a connection, when the task of an EXEC with
    the DESTROY flag has returned, the request ID can be used again: an
    INIT for it, on a channel that gives an executor, stores a new READY
    request under the ID. *)
Theorem destroy_frees_id c i t :
  reachable c -> g c !! i = Some t ->
  has_DESTROY (Subcommand (t_req t)) = true ->
  reusable (task_finish c i t) (RequestID (t_req t)) /\
  forall req channel args rpcer,
    RequestID req = RequestID (t_req t) ->
    channels c !! ServerChannelID req = Some channel ->
    Data (PVRequest req) = PVField_structure args ->
    Subcommand req = CHANNEL_RPC_INIT ->
    match asChannelRPCCreator channel with
    | Some create => create args = (rpcer, None)
    | None => asChannelRPCer channel = rpcer /\ rpcer <> None
    end ->
    handleChannelRPCBody (task_finish c i t) req =
    (with_request (task_finish c i t) (RequestID req)
       {| doer := iface_of rpcer; cancel := false; status := READY |},
     Returned None).
Proof.
  intros Hreach Hi Hflag. pose proof (wf_reachable c Hreach) as W.
  destruct (wf_tasks c W i t Hi) as (Hr & ro & Hro & _).
  assert (Hre : reusable (task_finish c i t) (RequestID (t_req t))).
  { right. exists (t_r t), (set_status DESTROYED ro). split; [exact Hr|].
    split; [|reflexivity]. rewrite task_finish_heap, Hro, Hflag.
    destruct (decide (t_r t = t_r t)) as [_|Hne];
      [reflexivity | now destruct Hne]. }
  split; [exact Hre|].
  intros req channel args rpcer Hid Hch Hdata Hsub Hex.
  apply (body_init_registers _ req channel args rpcer); try assumption.
  now rewrite Hid.
Qed.

(** X12.  In every state of a connection, when the task of an EXEC
    without the DESTROY flag has returned, the request can be executed
    again: the next EXEC for its ID, on an open channel and with a
    structure as argument, starts a task with the same executor. *)
Theorem exec_repeatable c i t req channel args :
  reachable c -> g c !! i = Some t ->
  has_DESTROY (Subcommand (t_req t)) = false ->
  RequestID req = RequestID (t_req t) ->
  channels c !! ServerChannelID req = Some channel ->
  Data (PVRequest req) = PVField_structure args ->
  Subcommand req <> CHANNEL_RPC_INIT ->
  exists c2,
    handleChannelRPCBody (task_finish c i t) req =
      (c2, Returned (Some err_asyncOperation)) /\
    g c2 =
      (delete i (g c) ++
       [ {| t_r := t_r t; t_rpcer := t_rpcer t; t_args := args;
            t_req := req; t_responded := false |} ])%list.
Proof.
  intros Hreach Hi Hflag Hid Hch Hdata Hsub.
  pose proof (wf_reachable c Hreach) as W.
  destruct (wf_tasks c W i t Hi) as (Hr & _).
  destruct (task_origin_invariant c Hreach i t Hi) as (_ & _ & ro & Hro & Hdo).
  eexists. split.
  - apply (body_exec_spawns _ req channel args (t_r t) (set_status READY ro)
             (t_rpcer t)); try assumption.
    + simpl. now rewrite Hid.
    + rewrite task_finish_heap, Hro, Hflag.
      destruct (decide (t_r t = t_r t)) as [_|Hne];
        [reflexivity | now destruct Hne].
    + reflexivity.
  - reflexivity.
Qed.

(** X13.  In every state of a connection there are no more tasks in
    flight than request IDs in the table. *)
Theorem tasks_bounded_by_table c :
  reachable c -> (length (g c) <= size (requests c))%nat.
Proof.
  intros Hreach. pose proof (wf_reachable c Hreach) as W.
  set (ids := (fun t => RequestID (t_req t)) <$> g c).
  assert (Hnd : NoDup ids).
  { apply NoDup_alt. intros i j id Hi Hj. unfold ids in Hi, Hj.
    rewrite list_lookup_fmap in Hi, Hj.
    destruct (g c !! i) as [t|] eqn:Hti; [|discriminate].
    destruct (g c !! j) as [u|] eqn:Htj; [|discriminate].
    simpl in Hi, Hj. injection Hi as Hi. injection Hj as Hj.
    destruct (wf_tasks c W i t Hti) as (Ht & _).
    destruct (wf_tasks c W j u Htj) as (Hu & _).
    rewrite Hi in Ht. rewrite Hj, Ht in Hu. injection Hu as Hu.
    now apply (wf_tasks_distinct c W i j t u). }
  assert (Hsub : (list_to_set ids : gset Z) ⊆ dom (requests c)).
  { intros id Hin. apply elem_of_list_to_set in Hin.
    apply list_elem_of_fmap in Hin as (t & -> & Ht).
    apply list_elem_of_lookup in Ht as [i Hi].
    destruct (wf_tasks c W i t Hi) as (Hr & _).
    apply elem_of_dom. now exists (t_r t). }
  apply subseteq_size in Hsub.
  rewrite size_list_to_set in Hsub by exact Hnd.
  rewrite size_dom in Hsub. unfold ids in Hsub.
  now rewrite length_fmap in Hsub.
Qed.

(** ** Dispatch and decoding *)

(** X14.  When the four command codes are pairwise different, as the keys
    of the map literal [serverDispatch] have to be, each code is handled
    by its own handler. *)
Theorem dispatch_routes c msg :
  APP_CONNECTION_VALIDATION <> APP_CHANNEL_CREATE ->
  APP_CONNECTION_VALIDATION <> APP_CHANNEL_RPC ->
  APP_CONNECTION_VALIDATION <> APP_SEARCH_REQUEST ->
  APP_CHANNEL_CREATE <> APP_CHANNEL_RPC ->
  APP_CHANNEL_CREATE <> APP_SEARCH_REQUEST ->
  APP_CHANNEL_RPC <> APP_SEARCH_REQUEST ->
  (MessageCommand msg = APP_CONNECTION_VALIDATION ->
   handleServerOnePacket c (inr msg) = handleConnectionValidation c msg) /\
  (MessageCommand msg = APP_CHANNEL_CREATE ->
   handleServerOnePacket c (inr msg) = handleCreateChannelRequest c msg) /\
  (MessageCommand msg = APP_CHANNEL_RPC ->
   handleServerOnePacket c (inr msg) = handleChannelRPC c msg) /\
  (MessageCommand msg = APP_SEARCH_REQUEST ->
   handleServerOnePacket c (inr msg) = handleSearchRequest c msg).
Proof.
  intros D1 D2 D3 D4 D5 D6. unfold handleServerOnePacket, serverDispatch.
  repeat split; intros ->.
  - now rewrite lookup_insert_eq.
  - rewrite lookup_insert_ne by congruence. now rewrite lookup_insert_eq.
  - rewrite !lookup_insert_ne by congruence. now rewrite lookup_insert_eq.
  - rewrite !lookup_insert_ne by congruence. now rewrite lookup_insert_eq.
Qed.

(** X15.  A message whose body does not decode changes nothing and sends
    nothing: the packet handler returns the decoding error when the
    command code has a handler, and [nil] when it has none. *)
Theorem undecodable_message c msg :
  Body msg = body_undecodable ->
  handleServerOnePacket c (inr msg) =
  (c, Returned (if decide (is_Some (serverDispatch !! MessageCommand msg))
                then Some (decodeErr msg) else None)).
Proof.
  intros Hb. unfold handleServerOnePacket.
  destruct (serverDispatch !! MessageCommand msg) as [f|] eqn:Hf.
  - destruct (decide (is_Some (Some f))) as [_|Hn];
      [|destruct Hn; now exists f].
    destruct (serverDispatch_lookup _ _ Hf) as [-> | [-> | [-> | ->]]].
    + unfold handleConnectionValidation,
        Decode_ConnectionValidationResponse. now rewrite Hb.
    + unfold handleCreateChannelRequest, Decode_CreateChannelRequest.
      now rewrite Hb.
    + unfold handleChannelRPC, Decode_ChannelRPCRequest. now rewrite Hb.
    + unfold handleSearchRequest, Decode_SearchRequest. now rewrite Hb.
  - destruct (decide (is_Some (@None (serverConn -> Message ->
                                      serverConn * outcome))))
      as [[x Hx]|_]; [discriminate | reflexivity].
Qed.

(** ** [handleCreateChannelRequest] with one entry *)

(** X16.  A create-channel request with exactly one entry is answered
    from what [createChannel] returns for it.  The answer always echoes the
    client's channel ID; an error gives the status of the error and no
    server ID; a channel gives the OK status and the client's ID as the
    server ID; neither gives the status ERROR "unknown channel" with the
    quoted name.  With a working transport the handler returns [nil]. *)
Theorem create_channel_reply c msg ch c1 channel err :
  Decode_CreateChannelRequest msg =
    inr {| Channels := [ch] |} ->
  createChannel c (ClientChannelID ch) (ChannelName ch) =
    (c1, (channel, err)) ->
  sendErr (Conn c1) = None ->
  exists resp,
    handleCreateChannelRequest c msg =
      (pushed c1 (App APP_CHANNEL_CREATE (pl_CreateChannelResponse resp)),
       Returned None) /\
    resp_ClientChannelID resp = ClientChannelID ch /\
    (forall e, err = Some e ->
       resp_Status resp = errorToStatus (Some e) /\
       resp_ServerChannelID resp = 0) /\
    (forall x, err = None -> channel = Some x ->
       resp_Status resp = PVStatus_zero /\
       resp_ServerChannelID resp = ClientChannelID ch) /\
    (err = None -> channel = None ->
       resp_Status resp =
         {| Type_ := PVStatus_ERROR;
            pvdata.Message := "unknown channel " +:+ fmt_q (ChannelName ch) |}).
Proof.
  intros Hd Hc Hok. unfold handleCreateChannelRequest.
  rewrite Hd. simpl. rewrite Hc.
  rewrite conn_SendApp_ok by exact Hok.
  destruct err as [e|]; [|destruct channel as [x|]];
    (eexists; split; [reflexivity|]); simpl;
    (split; [reflexivity|]).
  - split; [|split].
    + intros e' [= <-]. now split.
    + intros x' Hn. discriminate.
    + intros Hn. discriminate.
  - split; [|split].
    + intros e' Hn. discriminate.
    + intros x' _ _. now split.
    + intros _ Hn. discriminate.
  - split; [|split].
    + intros e' Hn. discriminate.
    + intros x' _ Hn. discriminate.
    + intros _ _. reflexivity.
Qed.

(** ** [errorToStatus] *)

(** X17.  The status of an error has severity OK only when the error is
    [nil] or is itself a status of severity OK. *)
Theorem errorToStatus_OK_iff err :
  Type_ (errorToStatus err) = PVStatus_OK <->
  err = None \/
  exists s, err = Some (err_PVStatus s) /\ Type_ s = PVStatus_OK.
Proof.
  split.
  - destruct err as [[s| | |text]|]; simpl; try discriminate.
    + intros Hs. right. now exists s.
    + intros _. now left.
  - intros [-> | (s & -> & Hs)]; [reflexivity | exact Hs].
Qed.

(** ** The handshake and the loop of [serve] *)

(** X18.  With a working transport [serve] opens with exactly two
    messages, the control message that sets the byte order with value 0 and
    then the connection validation request with the receive buffer size,
    the registry size 0x7fff and the mechanism "anonymous", and it sets the
    protocol version to 2; channels, requests and tasks are untouched. *)
Theorem serve_start_handshake c :
  sendErr (Conn c) = None ->
  exists c',
    serve_start c = (c', None) /\
    sent (Conn c') =
      (sent (Conn c) ++
       [Ctrl CTRL_SET_BYTE_ORDER 0;
        App APP_CONNECTION_VALIDATION
          (pl_ConnectionValidationRequest
             {| ServerReceiveBufferSize := ReceiveBufferSize (Conn c);
                ServerIntrospectionRegistryMaxSize := 32767;
                AuthNZ := ["anonymous"] |})])%list /\
    Version (Conn c') = 2 /\
    channels c' = channels c /\ requests c' = requests c /\
    heap c' = heap c /\ g c' = g c.
Proof.
  intros Hok. unfold serve_start, SendCtrl, conn_SendApp, SendApp, send.
  simpl. rewrite Hok. simpl. rewrite Hok. eexists. split; [reflexivity|].
  simpl. rewrite <- app_assoc. now repeat split.
Qed.

Lemma serve_loop_app c evs1 evs2 :
  serve_loop c (evs1 ++ evs2) =
  match serve_loop c evs1 with
  | (c', None) => serve_loop c' evs2
  | stopped => stopped
  end.
Proof.
  revert c. induction evs1 as [|ev evs1 IH]; intros c; simpl.
  - now destruct (serve_loop c evs2) as [c' [o|]].
  - destruct ev as [next|i|i|e].
    + destruct (handleServerOnePacket c next) as [c' [[[s| | |text]|]|p]];
        try reflexivity. apply IH.
    + destruct (g c !! i) as [t|]; [destruct (t_responded t)|]; apply IH.
    + destruct (g c !! i) as [t|]; [destruct (t_responded t)|]; apply IH.
    + apply IH.
Qed.


(** X20.  A message with a command code outside the dispatch table can be
    dropped from any schedule: the loop of [serve] ends in the same state
    with the same result. *)
Theorem serve_loop_skips_unknown c evs1 msg evs2 :
  MessageCommand msg <> APP_CONNECTION_VALIDATION ->
  MessageCommand msg <> APP_CHANNEL_CREATE ->
  MessageCommand msg <> APP_CHANNEL_RPC ->
  MessageCommand msg <> APP_SEARCH_REQUEST ->
  serve_loop c (evs1 ++ ev_packet (inr msg) :: evs2) =
  serve_loop c (evs1 ++ evs2).
Proof.
  intros H1 H2 H3 H4. rewrite !serve_loop_app.
  destruct (serve_loop c evs1) as [c' [o|]]; [reflexivity|].
  cbn [serve_loop].
  assert (Hp : handleServerOnePacket c' (inr msg) = (c', Returned None)).
  { unfold handleServerOnePacket, serverDispatch.
    rewrite !lookup_insert_ne by congruence. now rewrite lookup_empty. }
  now rewrite Hp.
Qed.

Lemma serve_loop_serving c evs c' res :
  serving c -> serve_loop c evs = (c', res) ->
  reachable c' /\ (res = None -> serving c').
Proof.
  revert c. induction evs as [|ev evs IH]; intros c Hc; simpl.
  - intros [= <- <-]. split; [now apply reachable_serving | now intros _].
  - destruct ev as [next|i|i|e].
    + destruct (handleServerOnePacket c next) as [c1 [[err|]|p]] eqn:Hp.
      * assert (Hr : reachable c1)
          by exact (reachable_stopped c next c1 err Hc Hp).
        destruct err as [s| | |text]; intros [= <- <-];
          (split; [exact Hr | discriminate]).
      * apply IH. exact (serving_packet c next c1 Hc Hp).
      * intros [= <- <-]. split; [|discriminate].
        (* a panic leaves the state as the handler found it *)
        assert (Hsame : c1 = c).
        { clear IH. revert Hp. unfold handleServerOnePacket.
          destruct next as [err|msg]; [discriminate|].
          destruct (serverDispatch !! MessageCommand msg) as [f|] eqn:Hf;
            [|discriminate].
          destruct (serverDispatch_lookup _ _ Hf) as [-> | [-> | [-> | ->]]].
          - unfold handleConnectionValidation.
            destruct (Decode_ConnectionValidationResponse msg);
              [discriminate|].
            destruct (conn_SendApp c _ _). discriminate.
          - unfold handleCreateChannelRequest.
            destruct (Decode_CreateChannelRequest msg) as [e0|req];
              [discriminate|].
            destruct (Channels req) as [|ch [|ch' rest]].
            + destruct (conn_SendApp c _ _). discriminate.
            + destruct (createChannel c _ _) as [c2 [channel err]].
              destruct (conn_SendApp c2 _ _). discriminate.
            + destruct (conn_SendApp c _ _). discriminate.
          - unfold handleChannelRPC.
            destruct (Decode_ChannelRPCRequest msg) as [e0|req];
              [discriminate|].
            destruct (handleChannelRPCBody c req) as [c2 [[e0|]|q]] eqn:Hb.
            + destruct e0; try discriminate;
                destruct (conn_SendApp c2 _ _); discriminate.
            + destruct (conn_SendApp c2 _ _). discriminate.
            + intros [= <- <-].
              now destruct (body_panics c req c2 q (wf_serving c Hc) Hb).
          - unfold handleSearchRequest.
            destruct (Decode_SearchRequest msg); [discriminate|].
            destruct (search_Search (Conn c) _). discriminate. }
        rewrite Hsame. now apply reachable_serving.
    + destruct (g c !! i) as [t|] eqn:Hi; [|now apply IH].
      destruct (t_responded t) eqn:Ht; [now apply IH|].
      apply IH. apply (serving_async c); [exact Hc|].
      now apply (async_respond c i t).
    + destruct (g c !! i) as [t|] eqn:Hi; [|now apply IH].
      destruct (t_responded t) eqn:Ht; [|now apply IH].
      apply IH. apply (serving_async c); [exact Hc|].
      now apply (async_finish c i t).
    + apply IH. apply (serving_async c); [exact Hc|]. apply async_transport.
Qed.

(** X21.  Whatever the schedule, the state in which [serve] is, or in
    which it has returned, is a state of the connection: it is well formed,
    so that the table points to request objects and every task in flight
    holds the REQUEST_IN_PROGRESS request of its ID. *)
Theorem serve_reaches_wf s k evs c' res :
  serve (newConn s k) evs = (c', res) ->
  reachable c' /\ wf c'.
Proof.
  unfold serve. destruct (serve_start (newConn s k)) as [c0 [err|]] eqn:Hs.
  - intros [= <- <-].
    assert (Hr : reachable c0) by exact (reachable_start s k c0 _ Hs).
    split; [exact Hr | now apply wf_reachable].
  - intros Hl.
    destruct (serve_loop_serving c0 evs c' res (serving_start s k c0 Hs) Hl)
      as [Hr _].
    split; [exact Hr | now apply wf_reachable].
Qed.

End life_properties.

(** * The built-in channel *)

Section serverChannel_properties.

Context `{Imports}.
Variable SubField : PVStructure -> string -> subfield.
Variable env : process_env.


Lemma operation_shape args v err :
  serverChannel_operation SubField env args = rpc_returned v err ->
  (err = None /\
   exists arg0,
     head (os_Args env) = Some arg0 /\
     v = val_info
           {| info_Process := arg0; info_StartTime := "sometime";
              info_Version := "1.0"; info_ImplLang := "Go";
              info_Host := fst (os_Hostname env);
              info_OS := GOOS env; info_Arch := GOARCH env |}) \/
  (err = Some invalid_argument /\ v = val_empty_ptr).
Proof.
  unfold serverChannel_operation.
  assert (Hop : forall op,
    (if String.eqb op "channels"
     then rpc_returned val_empty_ptr (Some invalid_argument)
     else if String.eqb op "info"
          then match os_Args env with
               | [] => rpc_panicked index_out_of_range
               | arg0 :: _ =>
                   rpc_returned
                     (val_info
                        {| info_Process := arg0; info_StartTime := "sometime";
                           info_Version := "1.0"; info_ImplLang := "Go";
                           info_Host := fst (os_Hostname env);
                           info_OS := GOOS env; info_Arch := GOARCH env |})
                     None
               end
          else rpc_returned val_empty_ptr (Some invalid_argument))
    = rpc_returned v err ->
    (err = None /\
     exists arg0,
       head (os_Args env) = Some arg0 /\
       v = val_info
             {| info_Process := arg0; info_StartTime := "sometime";
                info_Version := "1.0"; info_ImplLang := "Go";
                info_Host := fst (os_Hostname env);
                info_OS := GOOS env; info_Arch := GOARCH env |}) \/
    (err = Some invalid_argument /\ v = val_empty_ptr)).
  { intros op. destruct (String.eqb op "channels").
    - intros [= <- <-]. now right.
    - destruct (String.eqb op "info").
      + destruct (os_Args env) as [|arg0 rest]; [discriminate|].
        intros [= <- <-]. left. split; [reflexivity|]. now exists arg0.
      + intros [= <- <-]. now right. }
  destruct (SubField args "op") as [|q|[s|]|]; try apply Hop. discriminate.
Qed.

(** X22.  Whatever the arguments, when [ChannelRPC] of the built-in
    channel returns, it returns either the info structure (with the
    version "1.0", the language "Go", the host name and the first program
    argument) and no error, or an empty value and the status ERROR
    "invalid argument"; [errorToStatus] reports that error as ERROR, never
    as FATAL. *)
Theorem serverChannel_result_shape args v err :
  serverChannel_ChannelRPC SubField env args = rpc_returned v err ->
  (err = None /\
   exists arg0,
     head (os_Args env) = Some arg0 /\
     v = val_info
           {| info_Process := arg0; info_StartTime := "sometime";
              info_Version := "1.0"; info_ImplLang := "Go";
              info_Host := fst (os_Hostname env);
              info_OS := GOOS env; info_Arch := GOARCH env |}) \/
  (err = Some invalid_argument /\ (v = val_empty \/ v = val_empty_ptr) /\
   Type_ (errorToStatus err) = PVStatus_ERROR).
Proof.
  unfold serverChannel_ChannelRPC.
  assert (Hop : forall a,
    serverChannel_operation SubField env a = rpc_returned v err ->
    (err = None /\
     exists arg0,
       head (os_Args env) = Some arg0 /\
       v = val_info
             {| info_Process := arg0; info_StartTime := "sometime";
                info_Version := "1.0"; info_ImplLang := "Go";
                info_Host := fst (os_Hostname env);
                info_OS := GOOS env; info_Arch := GOARCH env |}) \/
    (err = Some invalid_argument /\ (v = val_empty \/ v = val_empty_ptr) /\
     Type_ (errorToStatus err) = PVStatus_ERROR)).
  { intros a Ha. destruct (operation_shape a v err Ha) as [Hl | [-> ->]];
      [now left | right]. split; [reflexivity|]. split; [now right|].
    reflexivity. }
  destruct (String.prefix _ (PVStructure_ID args)); [|apply Hop].
  destruct (SubField args "query") as [|[q|]|s|]; try discriminate;
    try apply Hop;
    intros [= <- <-]; right; (split; [reflexivity|]);
    (split; [now left | reflexivity]).
Qed.

(** X23.  For arguments that are not a NTURI, [ChannelRPC] of the
    built-in channel succeeds exactly when the sub-field "op" is the
    string "info" and the process has a first program argument; every
    other operation, "channels" among them, and a missing "op" are
    refused. *)
Theorem serverChannel_info_iff args :
  String.prefix "epics:nt/NTURI:1." (PVStructure_ID args) = false ->
  (exists i, serverChannel_ChannelRPC SubField env args = rpc_returned (val_info i) None) <->
  SubField args "op" = sub_PVString (Some "info") /\ os_Args env <> [].
Proof.
  intros Hp. unfold serverChannel_ChannelRPC. rewrite Hp.
  unfold serverChannel_operation. split.
  - intros [i Hi].
    destruct (SubField args "op") as [|q|[s|]|]; simpl in Hi;
      try discriminate.
    destruct (String.eqb s "channels"); [discriminate|].
    destruct (String.eqb s "info") eqn:Hs; [|discriminate].
    apply String.eqb_eq in Hs. subst s.
    split; [reflexivity|]. now destruct (os_Args env).
  - intros [-> Hargs]. simpl.
    destruct (os_Args env) as [|arg0 rest]; [now destruct Hargs|].
    eexists. reflexivity.
Qed.

(** X24.  For a NTURI, [ChannelRPC] of the built-in channel works on the
    sub-field "query": when that is a structure which is not a NTURI
    itself, the result is the result for that structure; when it is not a
    pointer to a structure, the call is refused with the status ERROR
    "invalid argument". *)
Theorem serverChannel_NTURI args :
  String.prefix "epics:nt/NTURI:1." (PVStructure_ID args) = true ->
  (forall q,
      SubField args "query" = sub_PVStructure (Some q) ->
      String.prefix "epics:nt/NTURI:1." (PVStructure_ID q) = false ->
      serverChannel_ChannelRPC SubField env args = serverChannel_ChannelRPC SubField env q) /\
  ((forall q, SubField args "query" <> sub_PVStructure q) ->
   serverChannel_ChannelRPC SubField env args = rpc_returned val_empty (Some invalid_argument)).
Proof.
  intros Hp. unfold serverChannel_ChannelRPC. rewrite Hp. split.
  - intros q Hq Hnp. now rewrite Hq, Hnp.
  - intros Hn. destruct (SubField args "query") as [|q|s|] eqn:Hq;
      try reflexivity. now destruct (Hn q).
Qed.

(** X25.  [ChannelRPC] of the built-in channel does not panic when no
    sub-field is a nil pointer and the process has a first program
    argument. *)
Theorem serverChannel_no_panic args :
  (forall a name,
      SubField a name <> sub_PVStructure None /\
      SubField a name <> sub_PVString None) ->
  os_Args env <> [] ->
  exists v err, serverChannel_ChannelRPC SubField env args = rpc_returned v err.
Proof.
  intros Hnn Hargs.
  assert (Hop : forall a, exists v err,
    serverChannel_operation SubField env a = rpc_returned v err).
  { intros a. unfold serverChannel_operation.
    assert (Hsw : forall op, exists v err,
      (if String.eqb op "channels"
       then rpc_returned val_empty_ptr (Some invalid_argument)
       else if String.eqb op "info"
            then match os_Args env with
                 | [] => rpc_panicked index_out_of_range
                 | arg0 :: _ =>
                     rpc_returned
                       (val_info
                          {| info_Process := arg0;
                             info_StartTime := "sometime";
                             info_Version := "1.0"; info_ImplLang := "Go";
                             info_Host := fst (os_Hostname env);
                             info_OS := GOOS env; info_Arch := GOARCH env |})
                       None
                 end
            else rpc_returned val_empty_ptr (Some invalid_argument))
      = rpc_returned v err).
    { intros op. destruct (String.eqb op "channels"); [now eexists _, _|].
      destruct (String.eqb op "info"); [|now eexists _, _].
      destruct (os_Args env); [now destruct Hargs | now eexists _, _]. }
    destruct (SubField a "op") as [|q|[s|]|] eqn:Ho; try apply Hsw.
    now destruct (proj2 (Hnn a "op")). }
  unfold serverChannel_ChannelRPC.
  destruct (String.prefix _ (PVStructure_ID args)); [|apply Hop].
  destruct (SubField args "query") as [|[q|]|s|] eqn:Hq;
    try (now eexists _, _); try apply Hop.
  now destruct (proj1 (Hnn args "query")).
Qed.

End serverChannel_properties.

(** * The further statements at the sample connection *)

Lemma serving_c_exec : @serving pva c_exec.
Proof. apply serving_after; [apply serving_c_ready | reflexivity]. Qed.

Lemma conn_step_c_ready_c_busy : @conn_step pva c_ready c_busy.
Proof.
  left. exists (inr (msg_rpc 1 5 16 args0)), (Returned None). reflexivity.
Qed.

Lemma request_status_domain_witness :
  (DESTROYED = READY \/ DESTROYED = REQUEST_IN_PROGRESS \/
   DESTROYED = DESTROYED) /\
  (true = false -> DESTROYED = READY).
Proof.
  apply (@request_status_domain pva c_done 0%nat
           {| doer := iface_ChannelRPCer echo_rpcer; cancel := true;
              status := DESTROYED |});
    [apply reachable_serving, serving_c_done | reflexivity].
Defined.

Lemma task_origin_witness :
  Subcommand (t_req t_busy) <> 8 /\
  Data (PVRequest (t_req t_busy)) = PVField_structure (t_args t_busy) /\
  exists r ro,
    requests c_busy !! 5 = Some r /\ heap c_busy !! r = Some ro /\
    doer ro = iface_ChannelRPCer echo_rpcer /\
    status ro = REQUEST_IN_PROGRESS /\ cancel ro = true.
Proof.
  apply (@task_origin pva c_busy 0%nat t_busy);
    [apply reachable_serving, serving_c_busy | reflexivity].
Defined.

Lemma one_task_per_request_witness : 0%nat = 0%nat.
Proof.
  apply (@one_task_per_request pva c_busy 0%nat 0%nat t_busy t_busy);
    [apply reachable_serving, serving_c_busy | reflexivity..].
Defined.

Lemma objects_are_kept_witness :
  exists ro',
    heap c_busy !! 0%nat = Some ro' /\
    doer ro' = iface_ChannelRPCer echo_rpcer /\
    (READY = DESTROYED -> status ro' = DESTROYED).
Proof.
  apply (@objects_are_kept pva c_ready c_busy 0%nat
           {| doer := iface_ChannelRPCer echo_rpcer; cancel := false;
              status := READY |});
    [apply reachable_serving, serving_c_ready
    | apply conn_step_c_ready_c_busy | reflexivity].
Defined.

Lemma table_entries_are_kept_witness :
  exists r',
    requests c_busy !! 5 = Some r' /\ (READY <> DESTROYED -> r' = 0%nat).
Proof.
  apply (@table_entries_are_kept pva c_ready c_busy 5 0%nat
           {| doer := iface_ChannelRPCer echo_rpcer; cancel := false;
              status := READY |});
    [apply reachable_serving, serving_c_ready
    | apply conn_step_c_ready_c_busy | reflexivity | reflexivity].
Defined.

Lemma exec_not_READY_reply_witness :
  @handleChannelRPC pva c_busy (msg_rpc 1 5 0 args0) =
  (pushed c_busy
     (@ack pva (rpc_request 1 5 0 args0)
        {| Type_ := PVStatus_ERROR; pvdata.Message := "request not READY" |}),
   Returned None).
Proof.
  apply (@exec_not_READY_reply pva c_busy (msg_rpc 1 5 0 args0)
           (rpc_request 1 5 0 args0) echo_channel no_args 0%nat
           {| doer := iface_ChannelRPCer echo_rpcer; cancel := true;
              status := REQUEST_IN_PROGRESS |});
    try reflexivity; discriminate.
Defined.

Lemma rpc_returns_nil_or_panics_witness :
  (exists c', @handleChannelRPC pva c_ready (msg_rpc 1 6 0 args0) =
              (c', Returned None)) \/
  (@handleChannelRPC pva c_ready (msg_rpc 1 6 0 args0) =
     (c_ready, Panicked nil_dereference) /\
   Subcommand (rpc_request 1 6 0 args0) <> 8 /\
   requests c_ready !! RequestID (rpc_request 1 6 0 args0) = None /\
   exists channel args,
     channels c_ready !! ServerChannelID (rpc_request 1 6 0 args0)
       = Some channel /\
     Data (PVRequest (rpc_request 1 6 0 args0)) = PVField_structure args).
Proof.
  apply (@rpc_returns_nil_or_panics pva c_ready (msg_rpc 1 6 0 args0)
           (rpc_request 1 6 0 args0));
    [apply reachable_serving, serving_c_ready | reflexivity | reflexivity].
Defined.

Lemma init_live_id_rejected_witness :
  exists c',
    @handleChannelRPC pva c_ready (msg_rpc 1 5 8 args0) =
      (c', Returned None) /\
    sent (Conn c') =
      (sent (Conn c_ready) ++
       [@ack pva (rpc_request 1 5 8 args0)
          {| Type_ := PVStatus_FATAL;
             pvdata.Message :=
               "request ID 5 already exists with status READY" |}])%list /\
    requests c' = requests c_ready /\
    heap c' !! 0%nat =
      Some {| doer := iface_ChannelRPCer echo_rpcer; cancel := false;
              status := READY |} /\
    g c' = g c_ready.
Proof.
  apply (@init_live_id_rejected pva c_ready (msg_rpc 1 5 8 args0)
           (rpc_request 1 5 8 args0) echo_channel no_args 0%nat
           {| doer := iface_ChannelRPCer echo_rpcer; cancel := false;
              status := READY |});
    try reflexivity; discriminate.
Defined.

Lemma init_factory_error_witness :
  @handleChannelRPC pva c_refusing (msg_rpc 1 5 8 args0) =
  (pushed c_refusing
     (@ack pva (rpc_request 1 5 8 args0)
        {| Type_ := PVStatus_ERROR; pvdata.Message := "not today" |}),
   Returned None).
Proof.
  apply (@init_factory_error pva c_refusing (msg_rpc 1 5 8 args0)
           (rpc_request 1 5 8 args0) refusing_channel no_args
           refusing_factory None refusal); reflexivity.
Defined.

Lemma exec_accepted_witness :
  exists c1 t,
    @handleChannelRPC pva c_ready (msg_rpc 1 5 0 args0) =
      (c1, Returned None) /\
    Conn c1 = Conn c_ready /\ g c1 = (g c_ready ++ [t])%list /\
    t_r t = 0%nat /\ t_responded t = false /\
    (exists ro1, heap c1 !! 0%nat = Some ro1 /\
                 status ro1 = REQUEST_IN_PROGRESS) /\
    (sendErr (Conn c_ready) = None ->
     sent (Conn (@task_respond pva c1 (length (g c_ready)) t)) =
       (sent (Conn c_ready) ++
        [App 20
           (pl_ChannelRPCResponse
              {| exec_RequestID := 5; exec_Subcommand := 0;
                 exec_Status := PVStatus_zero;
                 PVResponseData := NewPVAny args0 |})])%list).
Proof.
  apply (@exec_accepted pva c_ready (msg_rpc 1 5 0 args0)
           (rpc_request 1 5 0 args0) echo_channel no_args 0%nat
           {| doer := iface_ChannelRPCer echo_rpcer; cancel := false;
              status := READY |} echo_rpcer);
    try reflexivity; discriminate.
Defined.

Lemma destroy_frees_id_witness :
  @reusable (@task_finish pva c_busy 0 t_busy) 5 /\
  forall req channel args rpcer,
    RequestID req = 5 ->
    channels c_busy !! ServerChannelID req = Some channel ->
    Data (PVRequest req) = PVField_structure args ->
    Subcommand req = 8 ->
    match asChannelRPCCreator channel with
    | Some create => create args = (rpcer, None)
    | None => asChannelRPCer channel = rpcer /\ rpcer <> None
    end ->
    @handleChannelRPCBody pva (@task_finish pva c_busy 0 t_busy) req =
    (with_request (@task_finish pva c_busy 0 t_busy) (RequestID req)
       {| doer := iface_of rpcer; cancel := false; status := READY |},
     Returned None).
Proof.
  apply (@destroy_frees_id pva c_busy 0%nat t_busy);
    [apply reachable_serving, serving_c_busy | reflexivity | reflexivity].
Defined.

Lemma exec_repeatable_witness :
  exists c2,
    @handleChannelRPCBody pva (@task_finish pva c_exec 0 t_exec)
      (rpc_request 1 5 16 args0) =
      (c2, Returned (Some err_asyncOperation)) /\
    g c2 =
      (delete 0%nat (g c_exec) ++
       [ {| t_r := 0; t_rpcer := echo_rpcer; t_args := no_args;
            t_req := rpc_request 1 5 16 args0; t_responded := false |} ])%list.
Proof.
  apply (@exec_repeatable pva c_exec 0%nat t_exec
           (rpc_request 1 5 16 args0) echo_channel no_args);
    try reflexivity; [apply reachable_serving, serving_c_exec | discriminate].
Defined.

Lemma tasks_bounded_by_table_witness :
  (length (g c_busy) <= size (requests c_busy))%nat.
Proof.
  apply (@tasks_bounded_by_table pva c_busy).
  apply reachable_serving, serving_c_busy.
Defined.

Lemma dispatch_routes_witness :
  @handleServerOnePacket pva c_ready (inr (msg_rpc 1 5 0 args0)) =
  @handleChannelRPC pva c_ready (msg_rpc 1 5 0 args0).
Proof.
  apply (proj1 (proj2 (proj2
    (@dispatch_routes pva c_ready (msg_rpc 1 5 0 args0)
       ltac:(discriminate) ltac:(discriminate) ltac:(discriminate)
       ltac:(discriminate) ltac:(discriminate) ltac:(discriminate))))).
  reflexivity.
Defined.

Lemma undecodable_message_witness :
  @handleServerOnePacket pva c_ready (inr msg_garbled) =
  (c_ready, Returned (Some (err_errorString "short read"))).
Proof.
  apply (@undecodable_message pva c_ready msg_garbled). reflexivity.
Defined.

Lemma create_channel_reply_witness :
  exists resp,
    @handleCreateChannelRequest pva c_start (msg_create 1 "echo") =
      (pushed (set_channels (<[1 := echo_channel]> (channels c_start)) c_start)
         (App 7 (pl_CreateChannelResponse resp)),
       Returned None) /\
    resp_ClientChannelID resp = 1 /\
    (forall e, @None error = Some e ->
       resp_Status resp = @errorToStatus pva (Some e) /\
       resp_ServerChannelID resp = 0) /\
    (forall x, @None error = None -> Some echo_channel = Some x ->
       resp_Status resp = PVStatus_zero /\
       resp_ServerChannelID resp = 1) /\
    (@None error = None -> Some echo_channel = None ->
       resp_Status resp =
         {| Type_ := PVStatus_ERROR;
            pvdata.Message := "unknown channel " +:+ quote_plain "echo" |}).
Proof.
  apply (@create_channel_reply pva c_start (msg_create 1 "echo")
           {| ClientChannelID := 1; ChannelName := "echo" |}
           (set_channels (<[1 := echo_channel]> (channels c_start)) c_start)
           (Some echo_channel) None); reflexivity.
Defined.

Lemma serve_start_handshake_witness :
  exists c',
    @serve_start pva (newConn sample_srv k0) = (c', None) /\
    sent (Conn c') =
      [Ctrl 2 0;
       App 1 (pl_ConnectionValidationRequest
                {| ServerReceiveBufferSize := 16384;
                   ServerIntrospectionRegistryMaxSize := 32767;
                   AuthNZ := ["anonymous"] |})] /\
    Version (Conn c') = 2 /\
    channels c' = ∅ /\ requests c' = ∅ /\ heap c' = [] /\ g c' = [].
Proof.
  apply (@serve_start_handshake pva (newConn sample_srv k0)). reflexivity.
Defined.


Lemma serve_loop_skips_unknown_witness :
  @serve_loop pva c_ready
    ([ev_packet (inr (msg_rpc 1 5 16 args0))] ++
     ev_packet (inr msg_unknown) :: [ev_respond 0; ev_finish 0]) =
  @serve_loop pva c_ready
    ([ev_packet (inr (msg_rpc 1 5 16 args0))] ++ [ev_respond 0; ev_finish 0]).
Proof.
  apply (@serve_loop_skips_unknown pva c_ready
           [ev_packet (inr (msg_rpc 1 5 16 args0))] msg_unknown
           [ev_respond 0; ev_finish 0]); discriminate.
Defined.

Lemma serve_reaches_wf_witness :
  @reachable pva c_done /\ wf c_done.
Proof.
  apply (@serve_reaches_wf pva sample_srv k0
           [ev_packet (inr (msg_create 1 "echo"));
            ev_packet (inr (msg_rpc 1 5 8 args0));
            ev_packet (inr (msg_rpc 1 5 16 args0));
            ev_respond 0; ev_finish 0]
           c_done None).
  reflexivity.
Defined.

Lemma serverChannel_result_shape_witness :
  (@None error = None /\
   exists arg0,
     head (os_Args sample_env) = Some arg0 /\
     val_info sample_info =
     val_info
       {| info_Process := arg0; info_StartTime := "sometime";
          info_Version := "1.0"; info_ImplLang := "Go";
          info_Host := fst (os_Hostname sample_env);
          info_OS := GOOS sample_env; info_Arch := GOARCH sample_env |}) \/
  (@None error = Some invalid_argument /\
   (val_info sample_info = val_empty \/ val_info sample_info = val_empty_ptr) /\
   Type_ (@errorToStatus pva None) = PVStatus_ERROR).
Proof.
  apply (@serverChannel_result_shape pva sample_SubField sample_env
           nturi_info (val_info sample_info) None).
  reflexivity.
Defined.

Lemma serverChannel_info_iff_witness :
  (exists i,
      serverChannel_ChannelRPC sample_SubField sample_env query_info =
      rpc_returned (val_info i) None) <->
  sample_SubField query_info "op" = sub_PVString (Some "info") /\
  os_Args sample_env <> [].
Proof.
  apply (serverChannel_info_iff sample_SubField sample_env query_info).
  reflexivity.
Defined.

Lemma serverChannel_NTURI_witness :
  serverChannel_ChannelRPC sample_SubField sample_env nturi_info =
  serverChannel_ChannelRPC sample_SubField sample_env query_info.
Proof.
  apply (proj1 (serverChannel_NTURI sample_SubField sample_env nturi_info
                  eq_refl) query_info); reflexivity.
Defined.

Lemma serverChannel_no_panic_witness :
  exists v err,
    serverChannel_ChannelRPC sample_SubField sample_env nturi_info =
    rpc_returned v err.
Proof.
  apply (serverChannel_no_panic sample_SubField sample_env nturi_info).
  - intros a name. unfold sample_SubField.
    destruct (String.eqb (PVStructure_ID a) "epics:nt/NTURI:1.0");
      [destruct (String.eqb name "query"); split; discriminate|].
    destruct (String.eqb (PVStructure_ID a) "query");
      [destruct (String.eqb name "op")|]; split; discriminate.
  - discriminate.
Defined.
